(** * WiredTigerBrowser: a shallow embedding of [wt_browser.py]

    The browser opens a read-only connection to a storage directory, lists the
    tables of the catalog, inspects one table and exports tables to JSON and
    CSV.  The storage engine, the file system and the console are modelled as
    an explicit world that every method threads through; Python exceptions are
    an error outcome of the same monad. *)

From Stdlib Require Import List NArith ZArith Bool Lia Arith ZifyN ZifyBool.
From Stdlib Require Import Strings.String Strings.Ascii Strings.Byte.
From Stdlib Require Import Numbers.DecimalString Numbers.DecimalZ.
From Stdlib Require Import Sorting.Sorted Sorting.Permutation.
Import ListNotations.

Set Implicit Arguments.
Set Warnings "-register-all".

(** ** Python text and bytes *)

(** A Python [str] is a sequence of Unicode code points. *)
Definition pystr := list N.

(** A Python [bytes] object. *)
Definition pybytes := list byte.

(** Source-level string literals, read as ASCII code points. *)
Definition lit (s : string) : pystr :=
  map N_of_ascii (list_ascii_of_string s).

(** The byte with a given value (values above 255 wrap, never used so). *)
Definition byte_of_N (n : N) : byte :=
  match Byte.of_N (n mod 256) with
  | Some b => b
  | None => x00
  end.

Definition in_range (lo hi x : N) : bool := ((lo <=? x) && (x <=? hi))%N.

Module Utf8.

(** A continuation byte, [10xxxxxx]. *)
Definition cont (x : N) : bool := in_range 0x80 0xBF x.

(** The admissible second byte of a three-byte form: no overlong
    encodings under lead [E0], no surrogates under lead [ED]. *)
Definition second3 (x0 x1 : N) : bool :=
  if (x0 =? 0xE0)%N then in_range 0xA0 0xBF x1
  else if (x0 =? 0xED)%N then in_range 0x80 0x9F x1
  else cont x1.

(** The admissible second byte of a four-byte form: no overlong
    encodings under lead [F0], nothing above U+10FFFF under lead [F4]. *)
Definition second4 (x0 x1 : N) : bool :=
  if (x0 =? 0xF0)%N then in_range 0x90 0xBF x1
  else if (x0 =? 0xF4)%N then in_range 0x80 0x8F x1
  else cont x1.

(** [bytes.decode('utf-8')] with the default strict error handler:
    [None] stands for [UnicodeDecodeError]. *)
Fixpoint decode (bs : pybytes) : option pystr :=
  match bs with
  | [] => Some []
  | b0 :: r0 =>
    let x0 := Byte.to_N b0 in
    if (x0 <? 0x80)%N then option_map (cons x0) (decode r0)
    else if in_range 0xC2 0xDF x0 then
      match r0 with
      | b1 :: r1 =>
        let x1 := Byte.to_N b1 in
        if cont x1
        then option_map (cons ((x0 - 0xC0) * 64 + (x1 - 0x80))%N) (decode r1)
        else None
      | _ => None
      end
    else if in_range 0xE0 0xEF x0 then
      match r0 with
      | b1 :: b2 :: r2 =>
        let x1 := Byte.to_N b1 in
        let x2 := Byte.to_N b2 in
        if second3 x0 x1 && cont x2
        then option_map
               (cons ((x0 - 0xE0) * 4096 + (x1 - 0x80) * 64 + (x2 - 0x80))%N)
               (decode r2)
        else None
      | _ => None
      end
    else if in_range 0xF0 0xF4 x0 then
      match r0 with
      | b1 :: b2 :: b3 :: r3 =>
        let x1 := Byte.to_N b1 in
        let x2 := Byte.to_N b2 in
        let x3 := Byte.to_N b3 in
        if second4 x0 x1 && cont x2 && cont x3
        then option_map
               (cons ((x0 - 0xF0) * 262144 + (x1 - 0x80) * 4096
                      + (x2 - 0x80) * 64 + (x3 - 0x80))%N)
               (decode r3)
        else None
      | _ => None
      end
    else None
  end.

(** The UTF-8 form of one code point. *)
Definition encode_cp (c : N) : pybytes :=
  if (c <? 0x80)%N then [byte_of_N c]
  else if (c <? 0x800)%N then
    [byte_of_N (0xC0 + c / 64); byte_of_N (0x80 + c mod 64)]
  else if (c <? 0x10000)%N then
    [byte_of_N (0xE0 + c / 4096); byte_of_N (0x80 + (c / 64) mod 64);
     byte_of_N (0x80 + c mod 64)]
  else
    [byte_of_N (0xF0 + c / 262144); byte_of_N (0x80 + (c / 4096) mod 64);
     byte_of_N (0x80 + (c / 64) mod 64); byte_of_N (0x80 + c mod 64)].

(** [str.encode('utf-8')]: the bytes a text stands for. *)
Definition encode (t : pystr) : pybytes := flat_map encode_cp t.

End Utf8.

Module Hex.

(** The lowercase hexadecimal digit of a nibble. *)
Definition digit (n : N) : N := if (n <? 10)%N then (48 + n)%N else (87 + n)%N.

Definition of_byte (b : byte) : pystr :=
  let x := Byte.to_N b in [digit (x / 16); digit (x mod 16)].

(** [bytes.hex()]. *)
Definition hex (bs : pybytes) : pystr := flat_map of_byte bs.

Definition is_lower_hex (c : N) : bool := in_range 48 57 c || in_range 97 102 c.

Definition undigit (c : N) : option N :=
  if in_range 48 57 c then Some (c - 48)%N
  else if in_range 97 102 c then Some (c - 87)%N
  else if in_range 65 70 c then Some (c - 55)%N
  else None.

(** [binascii.unhexlify]: two digits per byte, [None] on anything else. *)
Fixpoint unhex (s : pystr) : option pybytes :=
  match s with
  | [] => Some []
  | h :: l :: r =>
    match undigit h, undigit l with
    | Some a, Some b => option_map (cons (byte_of_N (a * 16 + b))) (unhex r)
    | _, _ => None
    end
  | _ => None
  end.

End Hex.

(** ** Engine values and the value codec *)

(** What a cursor hands back for a key or a value: a signed integer, a text,
    raw bytes, or a tuple of sub-values (a multi-column encoding). *)
Inductive Value : Type :=
| VInt (z : Z)
| VStr (s : pystr)
| VBytes (b : pybytes)
| VTuple (vs : list Value).

(** [sep.join(parts)]. *)
Fixpoint join (sep : pystr) (parts : list pystr) : pystr :=
  match parts with
  | [] => []
  | [p] => p
  | p :: rest => p ++ sep ++ join sep rest
  end.

(** [str(n)] for an [int]: signed decimal. *)
Definition str_of_Z (z : Z) : pystr := lit (NilZero.string_of_int (Z.to_int z)).

(** [n] lowercase hexadecimal digits of [x], most significant first. *)
Fixpoint hex_digits (n : nat) (x : N) : pystr :=
  match n with
  | O => []
  | S n' => hex_digits n' (x / 16) ++ [Hex.digit (x mod 16)]
  end.

Definition has (c : N) (s : list N) : bool := existsb (N.eqb c) s.

(** The quote [repr] wraps a text in: double quotes only when the text has a
    single quote and no double quote. *)
Definition repr_quote (s : list N) : N :=
  if has 39 s && negb (has 34 s) then 34%N else 39%N.

Section Codec.

(** The Unicode database's table of printable code points
    ([str.isprintable] on one character); [repr] consults it above ASCII. *)
Variable isprintable : N -> bool.

(** One character of [repr(str)]. *)
Definition repr_char (quote c : N) : pystr :=
  if (c =? quote)%N || (c =? 92)%N then [92%N; c]
  else if (c =? 9)%N then lit "\t"
  else if (c =? 10)%N then lit "\n"
  else if (c =? 13)%N then lit "\r"
  else if (c <? 32)%N || (c =? 127)%N then lit "\x" ++ hex_digits 2 c
  else if (c <? 127)%N then [c]
  else if isprintable c then [c]
  else if (c <=? 0xFF)%N then lit "\x" ++ hex_digits 2 c
  else if (c <=? 0xFFFF)%N then lit "\u" ++ hex_digits 4 c
  else lit "\U" ++ hex_digits 8 c.

(** [repr(s)] for a [str]. *)
Definition repr_str (s : pystr) : pystr :=
  let q := repr_quote s in
  [q] ++ flat_map (repr_char q) s ++ [q].

(** One byte of [repr(bytes)]. *)
Definition repr_byte (quote c : N) : pystr :=
  if (c =? quote)%N || (c =? 92)%N then [92%N; c]
  else if (c =? 9)%N then lit "\t"
  else if (c =? 10)%N then lit "\n"
  else if (c =? 13)%N then lit "\r"
  else if (c <? 32)%N || (127 <=? c)%N then lit "\x" ++ hex_digits 2 c
  else [c].

(** [repr(b)] for a [bytes]. *)
Definition repr_bytes (b : pybytes) : pystr :=
  let xs := map Byte.to_N b in
  let q := repr_quote xs in
  lit "b" ++ [q] ++ flat_map (repr_byte q) xs ++ [q].

(** [repr] of a tuple from the [repr]s of its items: a parenthesised list
    with [", "] between the items and a trailing comma for one item. *)
Definition repr_tuple (items : list pystr) : pystr :=
  lit "(" ++ join (lit ", ") items
          ++ (if Nat.eqb (List.length items) 1 then lit "," else []) ++ lit ")".

(** [repr(v)]. *)
Fixpoint py_repr (v : Value) : pystr :=
  match v with
  | VInt z => str_of_Z z
  | VStr s => repr_str s
  | VBytes b => repr_bytes b
  | VTuple vs => repr_tuple (map py_repr vs)
  end.

(** [str(v)]: a text is itself, everything else prints as its [repr]. *)
Definition py_str (v : Value) : pystr :=
  match v with
  | VStr s => s
  | _ => py_repr v
  end.

(** [WiredTigerBrowser._serialize_value]. *)
Definition _serialize_value (value : Value) : pystr :=
  match value with
  | VBytes b =>
    match Utf8.decode b with
    | Some text => text
    | None => Hex.hex b
    end
  | VTuple _ => py_str value
  | _ => py_str value
  end.

End Codec.

(** ** String operations the methods use *)

(** [a == b] on texts. *)
Fixpoint str_eqb (a b : pystr) : bool :=
  match a, b with
  | [], [] => true
  | x :: a', y :: b' => (x =? y)%N && str_eqb a' b'
  | _, _ => false
  end.

(** [a < b] on texts: lexicographic by code point. *)
Fixpoint str_ltb (a b : pystr) : bool :=
  match a, b with
  | _, [] => false
  | [], _ :: _ => true
  | x :: a', y :: b' =>
    if (x <? y)%N then true
    else if (y <? x)%N then false
    else str_ltb a' b'
  end.

(** [s.startswith(prefix)]. *)
Fixpoint startswith (s prefix : pystr) : bool :=
  match prefix, s with
  | [], _ => true
  | p :: prefix', c :: s' => (c =? p)%N && startswith s' prefix'
  | _ :: _, [] => false
  end.

(** [s.split(sep, 1)] for a one-character separator: the text before the
    first separator and the text after it, or the text alone. *)
Fixpoint split_once (sep : N) (s : pystr) : list pystr :=
  match s with
  | [] => [[]]
  | c :: s' =>
    if (c =? sep)%N then [[]; s']
    else match split_once sep s' with
         | h :: t => (c :: h) :: t
         | [] => [[c]]
         end
  end.

(** The newest binding of a text key in an association list. *)
Fixpoint assoc {A} (k : pystr) (l : list (pystr * A)) : option A :=
  match l with
  | [] => None
  | (k', a) :: rest => if str_eqb k k' then Some a else assoc k rest
  end.

(** ** The storage engine, the file system and the console *)

(** What iterating a cursor yields: the rows, in the cursor's own order, and
    then either the end of the iteration or an engine error with its text. *)
Record scan (A : Type) : Type := Scan {
  rows : list A;
  fault : option pystr
}.

(** A database directory as the engine sees it: the metadata namespace and
    the tables that can be opened by name. *)
Record database : Type := Database {
  metadata : scan (pystr * pystr);
  tables : list (pystr * scan (Value * Value))
}.

(** The document [export_table_to_json] hands to [json.dump]. *)
Record json_doc : Type := JsonDoc {
  table : pystr;
  record_count : Z;
  records : list (pystr * pystr)
}.

Inductive file : Type :=
| JsonFile (doc : json_doc)
| CsvFile (lines : list (list pystr)).

(** Python exceptions the browser meets; all are subclasses of [Exception]. *)
Inductive exn : Type :=
| RuntimeError (msg : pystr)
| WiredTigerError (msg : pystr)
| IndexError (msg : pystr).

(** [str(e)]. *)
Definition exn_str (e : exn) : pystr :=
  match e with
  | RuntimeError m => m
  | WiredTigerError m => m
  | IndexError m => m
  end.

(** What [wiredtiger_open] makes of a directory: a database, or an error
    with the engine's text. *)
Inductive directory : Type :=
| Valid (db : database)
| Invalid (why : pystr).

(** The browser object together with everything it acts on.  A world stands
    for a browser that was constructed: the path checks of [__init__] are
    behind it. *)
Record world : Type := World {
  db_path : pystr;                 (* [self.db_path] *)
  disk : directory;                (* what the engine finds at [db_path] *)
  conn : option database;          (* [self.conn] *)
  released : nat;                  (* calls of [Connection.close] so far *)
  next_handle : nat;               (* the engine's next fresh handle *)
  sessions : list nat;             (* sessions that are open *)
  cursors : list (nat * nat);      (* open cursors, each with its session *)
  files : list (pystr * file);     (* the file system, newest entry first *)
  parents : list pystr;            (* output paths whose parent was created *)
  stdout : list pystr              (* lines printed *)
}.

Inductive result (A : Type) : Type :=
| Ok (a : A)
| Raise (e : exn).
Arguments Raise {A} e.

(** Computations over the world that return or raise. *)
Definition M (A : Type) : Type := world -> result A * world.

Definition ret {A} (a : A) : M A := fun w => (Ok a, w).

Definition raise {A} (e : exn) : M A := fun w => (Raise e, w).

Definition bind {A B} (m : M A) (k : A -> M B) : M B :=
  fun w =>
    match m w with
    | (Ok a, w') => k a w'
    | (Raise e, w') => (Raise e, w')
    end.

Notation "x <- m ;; k" := (bind m (fun x => k))
  (at level 61, m at next level, right associativity).
Notation "' pat <- m ;; k" := (bind m (fun x => match x with pat => k end))
  (at level 61, pat pattern, m at next level, right associativity).
Notation "m ;; k" := (bind m (fun _ => k))
  (at level 61, right associativity).

(** [try: body finally: fin]. *)
Definition try_finally {A} (body : M A) (fin : M unit) : M A :=
  fun w =>
    match body w with
    | (r, w') =>
      match fin w' with
      | (Ok _, w'') => (r, w'')
      | (Raise e, w'') => (Raise e, w'')
      end
    end.

(** [try: body except Exception as e: handler]. *)
Definition try_except {A} (body : M A) (handler : exn -> M A) : M A :=
  fun w =>
    match body w with
    | (Ok a, w') => (Ok a, w')
    | (Raise e, w') => handler e w'
    end.

Definition modify (f : world -> world) : M unit := fun w => (Ok tt, f w).

Definition set_conn (c : option database) (w : world) : world :=
  World (db_path w) (disk w) c (released w) (next_handle w)
        (sessions w) (cursors w) (files w) (parents w) (stdout w).

Definition set_released (n : nat) (w : world) : world :=
  World (db_path w) (disk w) (conn w) n (next_handle w)
        (sessions w) (cursors w) (files w) (parents w) (stdout w).

Definition set_handles (n : nat) (ss : list nat) (cs : list (nat * nat))
    (w : world) : world :=
  World (db_path w) (disk w) (conn w) (released w) n
        ss cs (files w) (parents w) (stdout w).

Definition set_files (fs : list (pystr * file)) (w : world) : world :=
  World (db_path w) (disk w) (conn w) (released w) (next_handle w)
        (sessions w) (cursors w) fs (parents w) (stdout w).

Definition set_parents (ps : list pystr) (w : world) : world :=
  World (db_path w) (disk w) (conn w) (released w) (next_handle w)
        (sessions w) (cursors w) (files w) ps (stdout w).

Definition set_stdout (out : list pystr) (w : world) : world :=
  World (db_path w) (disk w) (conn w) (released w) (next_handle w)
        (sessions w) (cursors w) (files w) (parents w) out.

(** [print(line)]. *)
Definition print (line : pystr) : M unit :=
  modify (fun w => set_stdout (stdout w ++ [line]) w).

Module Engine.

(** [conn.open_session()]. *)
Definition open_session : M nat :=
  fun w =>
    let s := next_handle w in
    (Ok s, set_handles (S s) (s :: sessions w) (cursors w) w).

Definition new_cursor (s : nat) : M nat :=
  fun w =>
    let c := next_handle w in
    (Ok c, set_handles (S c) (sessions w) ((c, s) :: cursors w) w).

(** [session.open_cursor("metadata:", None, None)]. *)
Definition open_metadata_cursor (db : database) (s : nat)
    : M (nat * scan (pystr * pystr)) :=
  c <- new_cursor s ;; ret (c, metadata db).

(** [session.open_cursor(f"table:{name}", None, None)]: an engine error
    when there is no such table. *)
Definition open_table_cursor (db : database) (s : nat) (name : pystr)
    : M (nat * scan (Value * Value)) :=
  match assoc name (tables db) with
  | Some sc => c <- new_cursor s ;; ret (c, sc)
  | None => raise (WiredTigerError (lit "No such file or directory"))
  end.

(** [cursor.close()]. *)
Definition close_cursor (c : nat) : M unit :=
  modify (fun w =>
    set_handles (next_handle w) (sessions w)
      (filter (fun e => negb (Nat.eqb (fst e) c)) (cursors w)) w).

(** [session.close()]: the engine closes the session and every cursor
    that is still open in it. *)
Definition close_session (s : nat) : M unit :=
  modify (fun w =>
    set_handles (next_handle w)
      (filter (fun s' => negb (Nat.eqb s' s)) (sessions w))
      (filter (fun e => negb (Nat.eqb (snd e) s)) (cursors w)) w).

End Engine.

Module Fs.

(** [output_file.parent.mkdir(parents=True, exist_ok=True)], for a parent
    that can be made or is there already.  A parent that cannot be made
    ([FileExistsError], [PermissionError]) is outside the model: what is
    said of the files an export leaves is said of the calls that get past
    this point. *)
Definition mkdir_parent (p : pystr) : M unit :=
  modify (fun w => set_parents (p :: parents w) w).

(** The file system with the file at [p] holding [f]. *)
Definition put (p : pystr) (f : file) (fs : list (pystr * file))
    : list (pystr * file) :=
  (p, f) :: filter (fun e => negb (str_eqb (fst e) p)) fs.

(** [open(p, 'w')] and the write of a whole content, for a path that can
    be opened for writing and a content the encoding takes.  A failing
    [open] or write ([IsADirectoryError], [PermissionError],
    [UnicodeEncodeError]) is outside the model, as for [mkdir_parent]. *)
Definition write (p : pystr) (f : file) : M unit :=
  modify (fun w => set_files (put p f (files w)) w).

(** [csv.writer(f).writerow(row)] on the file opened at [p]. *)
Definition writerow (p : pystr) (row : list pystr) : M unit :=
  modify (fun w =>
    match assoc p (files w) with
    | Some (CsvFile ls) => set_files (put p (CsvFile (ls ++ [row])) (files w)) w
    | _ => w
    end).

End Fs.

(** [xs[i]], raising [IndexError] out of range. *)
Definition index {A} (xs : list A) (i : nat) : M A :=
  match nth_error xs i with
  | Some x => ret x
  | None => raise (IndexError (lit "list index out of range"))
  end.

(** Insertion of one name into a sorted list, before the first name that is
    not smaller. *)
Fixpoint insert_sorted (x : pystr) (l : list pystr) : list pystr :=
  match l with
  | [] => [x]
  | y :: r => if str_ltb y x then y :: insert_sorted x r else x :: y :: r
  end.

(** The built-in [sorted] on a list of texts: ascending and stable. *)
Definition sorted (l : list pystr) : list pystr :=
  fold_right insert_sorted [] l.

(** ** The browser's methods *)

Definition not_open : exn :=
  RuntimeError (lit "Database connection not open. Call open() first.").

(** [if not self.conn: raise RuntimeError(...)]. *)
Definition require_conn : M database :=
  fun w =>
    match conn w with
    | Some db => (Ok db, w)
    | None => (Raise not_open, w)
    end.

(** [WiredTigerBrowser.open]. *)
Definition open : M unit :=
  fun w =>
    match disk w with
    | Valid db =>
      (modify (set_conn (Some db)) ;;
       print (lit "Successfully opened WiredTiger database at: "
              ++ db_path w)) w
    | Invalid why =>
      (Raise (RuntimeError (lit "Failed to open WiredTiger database: "
                            ++ why)), w)
    end.

(** [WiredTigerBrowser.close]. *)
Definition close : M unit :=
  fun w =>
    match conn w with
    | Some _ =>
      (modify (fun w => set_released (S (released w)) w) ;;
       modify (set_conn None) ;;
       print (lit "Database connection closed.")) w
    | None => (Ok tt, w)
    end.

(** The loop of [list_tables] over the metadata cursor. *)
Fixpoint collect_tables (rs : list (pystr * pystr)) (flt : option pystr)
    (acc : list pystr) : M (list pystr) :=
  match rs with
  | [] =>
    match flt with
    | None => ret acc
    | Some m => raise (WiredTigerError m)
    end
  | (key, _) :: rest =>
    if startswith key (lit "table:") then
      table_name <- index (split_once 58 key) 1 ;;
      collect_tables rest flt (acc ++ [table_name])
    else collect_tables rest flt acc
  end.

(** [WiredTigerBrowser.list_tables]. *)
Definition list_tables : M (list pystr) :=
  db <- require_conn ;;
  session <- Engine.open_session ;;
  tables <- try_finally
    ('(cursor, sc) <- Engine.open_metadata_cursor db session ;;
     tables <- collect_tables (rows sc) (fault sc) [] ;;
     Engine.close_cursor cursor ;;
     ret tables)
    (Engine.close_session session) ;;
  ret (sorted tables).

(** The dictionary [get_table_info] returns; [info_error] is [None] when the
    dictionary has no ["error"] key. *)
Record table_info : Type := TableInfo {
  info_name : pystr;
  info_exists : bool;
  info_config : option pystr;
  info_record_count : Z;
  info_error : option pystr
}.

(** The metadata loop of [get_table_info]: stops at the first match. *)
Fixpoint find_table (metadata_key : pystr) (rs : list (pystr * pystr))
    (flt : option pystr) (info : table_info) : M table_info :=
  match rs with
  | [] =>
    match flt with
    | None => ret info
    | Some m => raise (WiredTigerError m)
    end
  | (key, value) :: rest =>
    if str_eqb key metadata_key
    then ret (TableInfo (info_name info) true (Some value)
                        (info_record_count info) (info_error info))
    else find_table metadata_key rest flt info
  end.

(** The counting loop of [get_table_info]. *)
Fixpoint count_rows {A} (rs : list A) (flt : option pystr) (count : Z) : M Z :=
  match rs with
  | [] =>
    match flt with
    | None => ret count
    | Some m => raise (WiredTigerError m)
    end
  | _ :: rest => count_rows rest flt (count + 1)
  end.

(** [WiredTigerBrowser.get_table_info].  The dictionary is updated in place
    in the source; [info["record_count"] = count] runs only when the counting
    loop has ended, so the handler sees the dictionary as it was before. *)
Definition get_table_info (table_name : pystr) : M table_info :=
  db <- require_conn ;;
  session <- Engine.open_session ;;
  let info := TableInfo table_name false None 0 None in
  try_finally
    ('(metadata_cursor, sc) <- Engine.open_metadata_cursor db session ;;
     let metadata_key := lit "table:" ++ table_name in
     info <- find_table metadata_key (rows sc) (fault sc) info ;;
     Engine.close_cursor metadata_cursor ;;
     if info_exists info then
       try_except
         ('(cursor, tsc) <- Engine.open_table_cursor db session table_name ;;
          count <- count_rows (rows tsc) (fault tsc) 0 ;;
          let info := TableInfo (info_name info) (info_exists info)
                                (info_config info) count (info_error info) in
          Engine.close_cursor cursor ;;
          ret info)
         (fun e =>
            ret (TableInfo (info_name info) (info_exists info)
                   (info_config info) (info_record_count info)
                   (Some (lit "Could not count records: " ++ exn_str e))))
     else ret info)
    (Engine.close_session session).

(** [limit and count >= limit]: [None] and [0] are both falsy. *)
Definition limit_reached (limit : option Z) (count : Z) : bool :=
  match limit with
  | None => false
  | Some k => negb (k =? 0)%Z && (k <=? count)%Z
  end.

Definition exported_line (count : Z) (table_name output_path : pystr) : pystr :=
  lit "Exported " ++ str_of_Z count ++ lit " records from '" ++ table_name
    ++ lit "' to " ++ output_path.

Section Exports.

Variable isprintable : N -> bool.

(** The loop of [export_table_to_json]: append, count, then test the
    limit. *)
Fixpoint json_loop (limit : option Z) (rs : list (Value * Value))
    (flt : option pystr) (recs : list (pystr * pystr)) (count : Z)
    : M (list (pystr * pystr) * Z) :=
  match rs with
  | [] =>
    match flt with
    | None => ret (recs, count)
    | Some m => raise (WiredTigerError m)
    end
  | (key, value) :: rest =>
    let record := (_serialize_value isprintable key,
                   _serialize_value isprintable value) in
    let recs := recs ++ [record] in
    let count := (count + 1)%Z in
    if limit_reached limit count then ret (recs, count)
    else json_loop limit rest flt recs count
  end.

(** [WiredTigerBrowser.export_table_to_json]. *)
Definition export_table_to_json (table_name output_path : pystr)
    (limit : option Z) : M unit :=
  db <- require_conn ;;
  session <- Engine.open_session ;;
  try_finally
    ('(cursor, sc) <- Engine.open_table_cursor db session table_name ;;
     '(recs, count) <- json_loop limit (rows sc) (fault sc) [] 0 ;;
     Engine.close_cursor cursor ;;
     Fs.mkdir_parent output_path ;;
     Fs.write output_path (JsonFile (JsonDoc table_name count recs)) ;;
     print (exported_line count table_name output_path))
    (Engine.close_session session).

(** The loop of [export_table_to_csv]: write the row, count, then test
    the limit. *)
Fixpoint csv_loop (limit : option Z) (output_path : pystr)
    (rs : list (Value * Value)) (flt : option pystr) (count : Z) : M Z :=
  match rs with
  | [] =>
    match flt with
    | None => ret count
    | Some m => raise (WiredTigerError m)
    end
  | (key, value) :: rest =>
    Fs.writerow output_path
      [_serialize_value isprintable key; _serialize_value isprintable value] ;;
    let count := (count + 1)%Z in
    if limit_reached limit count then ret count
    else csv_loop limit output_path rest flt count
  end.

(** [WiredTigerBrowser.export_table_to_csv]. *)
Definition export_table_to_csv (table_name output_path : pystr)
    (limit : option Z) : M unit :=
  db <- require_conn ;;
  session <- Engine.open_session ;;
  try_finally
    ('(cursor, sc) <- Engine.open_table_cursor db session table_name ;;
     Fs.mkdir_parent output_path ;;
     Fs.write output_path (CsvFile []) ;;
     Fs.writerow output_path [lit "key"; lit "value"] ;;
     count <- csv_loop limit output_path (rows sc) (fault sc) 0 ;;
     Engine.close_cursor cursor ;;
     print (exported_line count table_name output_path))
    (Engine.close_session session).

End Exports.

(** ** The browser as a context manager *)

(** [WiredTigerBrowser.__enter__]: open, then hand the browser back. *)
Definition __enter__ : M unit := open.

(** [WiredTigerBrowser.__exit__]: close.  It returns [None], so an
    exception of the block is raised again after it. *)
Definition __exit__ : M unit := close.

(** [with browser: body], for a browser that was constructed: the block
    does not run when [__enter__] raises, and [__exit__] runs however the
    block ends. *)
Definition with_browser {A} (body : M A) : M A :=
  __enter__ ;; try_finally body __exit__.

(** ** The command line ([cli.py])

    The body of each command, run in a process that holds the browser's
    world, the standard error stream, and what the path argument names.
    Parsing and checking of the arguments by [click] come before the body
    and are not part of it. *)

(** What [db_path] names in the file system. *)
Inductive path_kind : Type :=
| Missing
| NotDirectory
| Directory.

Record process : Type := Process {
  browser : world;          (* the browser and all it acts on *)
  kind : path_kind;         (* what [Path(db_path)] names *)
  stderr : list pystr;      (* lines of [click.echo(..., err=True)] *)
  made : list pystr         (* directories made by [Path.mkdir] *)
}.

(** Subclasses of [Exception] a command body can meet. *)
Inductive cli_exn : Type :=
| BrowserError (e : exn)
| FileNotFoundError (msg : pystr)
| ValueError (msg : pystr).

(** [str(e)]. *)
Definition cli_exn_str (e : cli_exn) : pystr :=
  match e with
  | BrowserError e => exn_str e
  | FileNotFoundError m => m
  | ValueError m => m
  end.

(** How a piece of a command ends: normally, with an exception that
    [except Exception] catches, or with [SystemExit], which it does not. *)
Inductive outcome (A : Type) : Type :=
| Done (a : A)
| Fail (e : cli_exn)
| Exit (code : Z).
Arguments Fail {A} e.
Arguments Exit {A} code.

Definition C (A : Type) : Type := process -> outcome A * process.

Module Cli.

Definition done {A} (a : A) : C A := fun p => (Done a, p).

Definition fail {A} (e : cli_exn) : C A := fun p => (Fail e, p).

(** [sys.exit(code)]. *)
Definition sys_exit {A} (code : Z) : C A := fun p => (Exit code, p).

Definition cbind {A B} (c : C A) (k : A -> C B) : C B :=
  fun p =>
    match c p with
    | (Done a, p') => k a p'
    | (Fail e, p') => (Fail e, p')
    | (Exit n, p') => (Exit n, p')
    end.

Definition set_browser (w : world) (p : process) : process :=
  Process w (kind p) (stderr p) (made p).

(** A method of the browser, called from a command. *)
Definition lift {A} (m : M A) : C A :=
  fun p =>
    match m (browser p) with
    | (Ok a, w) => (Done a, set_browser w p)
    | (Raise e, w) => (Fail (BrowserError e), set_browser w p)
    end.

(** [click.echo(line)]: standard output, which the browser's [print]
    writes to as well. *)
Definition echo (line : pystr) : C unit := lift (print line).

(** [click.echo(line, err=True)]. *)
Definition echo_err (line : pystr) : C unit :=
  fun p => (Done tt, Process (browser p) (kind p) (stderr p ++ [line])
                             (made p)).

(** [Path(dir).mkdir(parents=True, exist_ok=True)], for a directory that
    can be made or is there already. *)
Definition mkdir (dir : pystr) : C unit :=
  fun p => (Done tt, Process (browser p) (kind p) (stderr p)
                             (dir :: made p)).

(** [for x in xs: body]. *)
Fixpoint for_each {A} (body : A -> C unit) (xs : list A) : C unit :=
  match xs with
  | [] => done tt
  | x :: rest => cbind (body x) (fun _ => for_each body rest)
  end.

(** [try: body except Exception as e: handler]: [SystemExit] passes. *)
Definition try_except_Exception {A} (body : C A) (handler : cli_exn -> C A)
    : C A :=
  fun p =>
    match body p with
    | (Fail e, p') => handler e p'
    | other => other
    end.

(** The end of every command: the error on standard error, status 1. *)
Definition report (e : cli_exn) : C unit :=
  cbind (echo_err (lit "Error: " ++ cli_exn_str e)) (fun _ => sys_exit 1).

(** [x in xs] for a list of texts. *)
Definition member (x : pystr) (xs : list pystr) : bool :=
  existsb (str_eqb x) xs.

(** ["-" * 50]. *)
Definition rule : pystr := repeat 45%N 50.

(** [f"  • {name}"]. *)
Definition bullet (name : pystr) : pystr :=
  lit "  " ++ [8226%N] ++ lit " " ++ name.

(** The two values of [--format]. *)
Inductive format : Type :=
| json
| csv.

Section Commands.

(** [str(Path(s))] and [str(Path(dir) / name)], from [pathlib]. *)
Variable path_str : pystr -> pystr.
Variable path_join : pystr -> pystr -> pystr.

(** The table of printable code points the codec's [repr] consults. *)
Variable isprintable : N -> bool.

(** [WiredTigerBrowser.__init__]. *)
Definition __init__ (db_path : pystr) : C unit :=
  fun p =>
    let w := browser p in
    let self := World (path_str db_path) (disk w) None (released w)
                      (next_handle w) (sessions w) (cursors w)
                      (files w) (parents w) (stdout w) in
    let p := set_browser self p in
    match kind p with
    | Missing =>
      (Fail (FileNotFoundError
               (lit "Database path does not exist: " ++ db_path)), p)
    | NotDirectory =>
      (Fail (ValueError
               (lit "Database path must be a directory: " ++ db_path)), p)
    | Directory => (Done tt, p)
    end.

(** [with WiredTigerBrowser(db_path) as browser: body]: construct, enter,
    run the block, and exit however the block ended. *)
Definition with_new_browser {A} (db_path : pystr) (body : C A) : C A :=
  cbind (__init__ db_path) (fun _ =>
  cbind (lift __enter__) (fun _ =>
  fun p =>
    match body p with
    | (r, p') =>
      match lift __exit__ p' with
      | (Done _, p'') => (r, p'')
      | (Fail e, p'') => (Fail e, p'')
      | (Exit n, p'') => (Exit n, p'')
      end
    end)).

(** [f"{b}"] for a [bool]. *)
Definition str_of_bool (b : bool) : pystr :=
  if b then lit "True" else lit "False".

(** [if d.get(key):] for an optional text: there and not empty. *)
Definition truthy (o : option pystr) : bool :=
  match o with
  | Some (_ :: _) => true
  | _ => false
  end.

Definition text_of (o : option pystr) : pystr :=
  match o with
  | Some s => s
  | None => lit "None"
  end.

(** The command [info]. *)
Definition info (db_path table_name : pystr) : C unit :=
  try_except_Exception
    (with_new_browser db_path
       (cbind (lift (get_table_info table_name)) (fun table_info =>
        cbind (echo ([10%N] ++ lit "Table Information: " ++ table_name))
              (fun _ =>
        cbind (echo rule) (fun _ =>
        cbind (echo (lit "Exists: "
                     ++ str_of_bool (info_exists table_info))) (fun _ =>
        if info_exists table_info then
          cbind (echo (lit "Record Count: "
                       ++ str_of_Z (info_record_count table_info)))
                (fun _ =>
          cbind (if truthy (info_config table_info) then
                   cbind (echo ([10%N] ++ lit "Configuration:")) (fun _ =>
                   echo (lit "  " ++ text_of (info_config table_info)))
                 else done tt) (fun _ =>
          if truthy (info_error table_info) then
            echo_err ([10%N] ++ lit "Warning: "
                      ++ text_of (info_error table_info))
          else done tt))
        else
          echo (lit "Table '" ++ table_name
                ++ lit "' does not exist in the database.")))))))
    report.

(** The command [export]. *)
Definition export (db_path table_name output_file : pystr) (fmt : format)
    (limit : option Z) : C unit :=
  try_except_Exception
    (with_new_browser db_path
       (cbind (lift list_tables) (fun tables =>
        cbind (if negb (member table_name tables) then
                 cbind (echo_err (lit "Error: Table '" ++ table_name
                                  ++ lit "' not found in database."))
                       (fun _ =>
                 cbind (echo_err ([10%N] ++ lit "Available tables:"))
                       (fun _ =>
                 cbind (for_each (fun t => echo_err (bullet t)) tables)
                       (fun _ =>
                 sys_exit 1)))
               else done tt) (fun _ =>
        cbind (match fmt with
               | json =>
                 lift (export_table_to_json isprintable table_name
                         output_file limit)
               | csv =>
                 lift (export_table_to_csv isprintable table_name
                         output_file limit)
               end) (fun _ =>
        echo ([10003%N] ++ lit " Export completed successfully!"))))))
    report.

(** The command [export-all]. *)
Definition export_all (db_path output_dir : pystr) (fmt : format)
    (limit : option Z) : C unit :=
  try_except_Exception
    (cbind (mkdir output_dir) (fun _ =>
     with_new_browser db_path
       (cbind (lift list_tables) (fun tables =>
        match tables with
        | [] => echo (lit "No tables found to export.")
        | _ :: _ =>
          cbind (echo ([10%N] ++ lit "Exporting "
                       ++ str_of_Z (Z.of_nat (List.length tables))
                       ++ lit " table(s) to " ++ output_dir ++ lit "..."))
                (fun _ =>
          cbind (echo rule) (fun _ =>
          cbind (for_each
                   (fun table =>
                      let ext := match fmt with
                                 | json => lit "json"
                                 | csv => lit "csv"
                                 end in
                      let output_file :=
                        path_join output_dir (table ++ lit "." ++ ext) in
                      try_except_Exception
                        (match fmt with
                         | json =>
                           lift (export_table_to_json isprintable table
                                   output_file limit)
                         | csv =>
                           lift (export_table_to_csv isprintable table
                                   output_file limit)
                         end)
                        (fun e =>
                           echo_err (lit "  " ++ [10007%N]
                                     ++ lit " Failed to export '" ++ table
                                     ++ lit "': " ++ cli_exn_str e)))
                   tables) (fun _ =>
          echo ([10%N; 10003%N] ++ lit " All tables exported to "
                ++ output_dir))))
        end))))
    report.

(** The command [list-tables]. *)
Definition list_tables (db_path : pystr) : C unit :=
  try_except_Exception
    (with_new_browser db_path
       (cbind (lift list_tables) (fun tables =>
        match tables with
        | _ :: _ =>
          cbind (echo ([10%N] ++ lit "Found "
                       ++ str_of_Z (Z.of_nat (List.length tables))
                       ++ lit " table(s) in " ++ db_path ++ lit ":"))
                (fun _ =>
          cbind (echo rule) (fun _ =>
          for_each (fun table => echo (bullet table)) tables))
        | [] => echo (lit "No tables found in " ++ db_path)
        end)))
    report.

End Commands.

(** The exit status of the process that ran a command body. *)
Definition status (r : outcome unit * process) : Z :=
  match fst r with
  | Done _ => 0
  | Fail _ => 1
  | Exit code => code
  end.

End Cli.

(** ** Sorting tables by kind ([mongodb_examples.py]) *)

(** [s.startswith(prefixes)] for a tuple of prefixes: any of them. *)
Definition startswith_any (s : pystr) (prefixes : list pystr) : bool :=
  existsb (startswith s) prefixes.

Module Analyze.

(** [[t for t in tables if t.startswith('collection-')]]. *)
Definition collections (tables : list pystr) : list pystr :=
  filter (fun t => startswith t (lit "collection-")) tables.

(** [[t for t in tables if t.startswith('index-')]]. *)
Definition indexes (tables : list pystr) : list pystr :=
  filter (fun t => startswith t (lit "index-")) tables.

(** [[t for t in tables if not t.startswith(('collection-', 'index-'))]]. *)
Definition system (tables : list pystr) : list pystr :=
  filter (fun t => negb (startswith_any t [lit "collection-"; lit "index-"]))
         tables.

End Analyze.

(** ** A sample database

    The three tables of the demonstration script (users, products, logs),
    their values abridged, and one table whose scan fails after two rows. *)
Module Demo.

Definition always_printable (c : N) : bool := true.

Definition users : scan (Value * Value) :=
  Scan [(VInt 1, VStr (lit "{name: Alice, age: 30}"));
        (VInt 2, VStr (lit "{name: Bob, age: 25}"));
        (VInt 3, VStr (lit "{name: Charlie, age: 35}"))] None.

Definition products : scan (Value * Value) :=
  Scan [(VStr (lit "prod-001"), VStr (lit "Laptop"));
        (VStr (lit "prod-002"), VStr (lit "Mouse"));
        (VStr (lit "prod-003"), VStr (lit "Keyboard"));
        (VStr (lit "prod-004"), VStr (lit "Monitor"))] None.

Definition logs : scan (Value * Value) :=
  Scan (map (fun i => (VInt (Z.of_nat i),
                       VStr (lit "log entry " ++ str_of_Z (Z.of_nat i))))
            (seq 1 10)) None.

Definition damaged : scan (Value * Value) :=
  Scan [(VInt 1, VBytes [x61]); (VInt 2, VBytes [xff; xfe])]
       (Some (lit "WT_PANIC: WiredTiger library panic")).

Definition db : database :=
  Database
    (Scan [(lit "colgroup:users", lit "source=file:users.wt");
           (lit "file:users.wt", lit "allocation_size=4KB");
           (lit "table:users", lit "key_format=i,value_format=S");
           (lit "table:products", lit "key_format=S,value_format=S");
           (lit "table:logs", lit "key_format=i,value_format=S");
           (lit "table:damaged", lit "key_format=i,value_format=u")]
          None)
    [(lit "users", users); (lit "products", products);
     (lit "logs", logs); (lit "damaged", damaged)].

(** A browser that was constructed but not opened. *)
Definition closed : world :=
  World (lit "/tmp/demo_wt_db") (Valid db) None 0 0 [] [] [] [] [].

(** The same browser after [open()]. *)
Definition opened : world := snd (open closed).

(** An open browser beside which the engine already holds another
    session with one cursor. *)
Definition busy : world :=
  World (lit "/tmp/demo_wt_db") (Valid db) (Some db) 0 2 [0] [(1, 0)]
        [] [] [].

End Demo.

(** Further sample worlds: a catalog entry without a table behind it, and a
    catalog whose scan fails after its first entry. *)
Module Demo2.

Definition ghost_db : database :=
  Database (Scan [(lit "table:ghost", lit "key_format=S")] None) [].

Definition haunted : world :=
  World (lit "/tmp/ghost") (Valid ghost_db) (Some ghost_db) 0 0 [] []
        [] [] [].

Definition torn_db : database :=
  Database
    (Scan [(lit "table:logs", lit "key_format=i,value_format=S")]
          (Some (lit "WT_ERROR: read checksum error")))
    [(lit "logs", Demo.logs); (lit "users", Demo.users)].

Definition torn : world :=
  World (lit "/tmp/torn") (Valid torn_db) (Some torn_db) 0 0 [] []
        [] [] [].

(** The sample database with its catalog read backwards. *)
Definition shuffled_db : database :=
  Database (Scan (rev (rows (metadata Demo.db))) None) (tables Demo.db).

Definition shuffled : world :=
  World (lit "/tmp/demo_wt_db") (Valid shuffled_db) (Some shuffled_db)
        0 0 [] [] [] [] [].

(** The open sample browser beside a file of the user's. *)
Definition with_notes : world :=
  World (lit "/tmp/demo_wt_db") (Valid Demo.db) (Some Demo.db) 0 0 [] []
        [(lit "notes.txt", CsvFile [[lit "keep me"]])] [] [].

(** A process about to run a command on the sample database. *)
Definition shell : process := Process Demo.closed Directory [] [].

End Demo2.

(** ** Vocabulary of the statements *)

(** Strictly below, in the order [sorted] uses. *)
Definition str_lt (a b : pystr) : Prop := str_ltb a b = true.

(** The guard of the loop of [list_tables]. *)
Definition is_table_key (k : pystr) : bool := startswith k (lit "table:").

(** A row as both exports render it. *)
Definition render_row (isprintable : N -> bool) (kv : Value * Value)
    : pystr * pystr :=
  (_serialize_value isprintable (fst kv),
   _serialize_value isprintable (snd kv)).

(** The line [writerow] receives for a rendered row. *)
Definition csv_line (r : pystr * pystr) : list pystr := [fst r; snd r].

(** How many of [n] remaining rows the export loops go through when the
    counter stands at [count]: the loop body runs, then the limit is
    tested. *)
Fixpoint taken (limit : option Z) (n : nat) (count : Z) : nat :=
  match n with
  | O => O
  | S n' =>
    if limit_reached limit (count + 1) then 1
    else S (taken limit n' (count + 1))
  end.

(** The same number in closed form, for a loop that starts at zero. *)
Definition emitted (limit : option Z) (n : nat) : nat :=
  match limit with
  | None => n
  | Some k => if (k =? 0)%Z then n else Nat.min (Z.to_nat (Z.max 1 k)) n
  end.

(** No session or cursor of the world bears a handle the engine has yet to
    hand out. *)
Definition handles_fresh (w : world) : Prop :=
  Forall (fun s => s < next_handle w) (sessions w)
  /\ Forall (fun e => fst e < next_handle w /\ snd e < next_handle w)
            (cursors w).

(** The open cursors that belong to sessions other than [s]. *)
Definition others (s : nat) (w : world) : list (nat * nat) :=
  filter (fun e => negb (Nat.eqb (snd e) s)) (cursors w).

(** What holds of the world all through the body an operation runs inside
    its session [s]: the engine's handles have moved past [n0], and every
    cursor of another session is older than [n0]. *)
Definition in_session (s n0 : nat) (w : world) : Prop :=
  n0 <= next_handle w /\ Forall (fun e => fst e < n0) (others s w).

(** [m] runs inside session [s]: it opens and closes no session, leaves the
    cursors of other sessions alone, and its result satisfies [P]. *)
Definition keeps (s n0 : nat) {A} (m : M A) (P : A -> Prop) : Prop :=
  forall w, in_session s n0 w ->
    in_session s n0 (snd (m w))
    /\ sessions (snd (m w)) = sessions w
    /\ others s (snd (m w)) = others s w
    /\ (forall a, fst (m w) = Ok a -> P a).

(** The shape of every operation after its connection test: open a session,
    run the body, close the session whatever happened. *)
Definition scoped {A} (body : nat -> M A) : M A :=
  session <- Engine.open_session ;;
  try_finally (body session) (Engine.close_session session).

(** Two worlds that differ at most in the engine's handles: the same
    browser, the same connection, the same files and console. *)
Definition same_outside_engine (w w' : world) : Prop :=
  db_path w' = db_path w /\ disk w' = disk w /\ conn w' = conn w
  /\ released w' = released w /\ files w' = files w
  /\ parents w' = parents w /\ stdout w' = stdout w.

(** Two worlds with the same file under every path but [path]. *)
Definition same_other_files (path : pystr) (w w' : world) : Prop :=
  forall p, p <> path -> assoc p (files w') = assoc p (files w).

(** Whatever [m] returns or raises, the world it leaves is related by [R]
    to the world it found. *)
Definition preserves (R : world -> world -> Prop) {A} (m : M A) : Prop :=
  forall w, R w (snd (m w)).

(** Ascending, in the order [sorted] uses: no name is followed by a smaller
    one. *)
Definition str_le (a b : pystr) : Prop := str_ltb b a = false.

(** A piece of a command that ends the process, if at all, with status 1. *)
Definition exits_with_1 {A} (c : C A) : Prop :=
  forall p n, fst (c p) = Exit n -> n = 1%Z.

(** A piece of a command that always ends normally. *)
Definition always_done {A} (c : C A) : Prop :=
  forall p, exists a p', c p = (Done a, p').

(** The process as the block of a [with] finds it, on a directory that
    holds the database [db]: a browser constructed for [path], open, and
    the line [open] prints. *)
Definition entered (path : pystr) (db : database) (p : process) : process :=
  let w := browser p in
  Process
    (World path (disk w) (Some db) (released w) (next_handle w)
           (sessions w) (cursors w) (files w) (parents w)
           (stdout w
            ++ [lit "Successfully opened WiredTiger database at: " ++ path]))
    (kind p) (stderr p) (made p).

(** The process after [__exit__]. *)
Definition exited (p : process) : process := snd (Cli.lift __exit__ p).

(** A Unicode scalar value: a code point up to U+10FFFF that is no
    surrogate.  A text of scalar values is what UTF-8 can carry. *)
Definition is_scalar (c : N) : Prop :=
  (c < 0xD800 \/ 0xDFFF < c <= 0x10FFFF)%N.

(** Valid UTF-8, said without the decoder: the bytes are the UTF-8 form of
    some text of scalar values. *)
Definition valid_utf8 (b : pybytes) : Prop :=
  exists t : pystr, Forall is_scalar t /\ Utf8.encode t = b.

(** Two worlds with the same lines on standard output. *)
Definition same_stdout (w w' : world) : Prop := stdout w' = stdout w.




(** * Properties *)

#[local] Ltac div_mod_hook := Z.div_mod_to_equations.
Ltac Zify.zify_post_hook ::= div_mod_hook.

(** ** The value codec *)

Lemma byte_of_to_N (b : byte) (n : N) : n = Byte.to_N b -> byte_of_N n = b.
Proof.
  intros ->. unfold byte_of_N.
  pose proof (Byte.to_N_bounded b) as Hb.
  rewrite N.mod_small by lia.
  now rewrite Byte.of_to_N.
Qed.

Lemma option_map_some {A B} (f : A -> B) (o : option A) (y : B) :
  option_map f o = Some y -> exists x, o = Some x /\ y = f x.
Proof.
  destruct o as [x|]; simpl; intros H; [|discriminate].
  exists x. split; congruence.
Qed.

(** Unfold the byte-range tests into linear facts. *)
Ltac ranges :=
  unfold Utf8.second3, Utf8.second4, Utf8.cont, in_range in *;
  repeat match goal with
  | H : _ && _ = true |- _ => apply andb_prop in H; destruct H
  | H : context [if ?c then _ else _] |- _ => destruct c eqn:?
  end.

Lemma decode_encode_bounded (n : nat) :
  forall (b : pybytes) (t : pystr),
    List.length b <= n -> Utf8.decode b = Some t -> Utf8.encode t = b.
Proof.
  induction n as [|n IH]; intros b t Hlen Hdec.
  - destruct b; [|simpl in Hlen; lia]. simpl in Hdec. now inversion Hdec.
  - destruct b as [|b0 r0]; [simpl in Hdec; now inversion Hdec|].
    simpl in Hlen. cbn [Utf8.decode] in Hdec.
    pose proof (Byte.to_N_bounded b0) as B0.
    destruct (Byte.to_N b0 <? 128)%N eqn:E1.
    { apply option_map_some in Hdec. destruct Hdec as (t' & Ht' & ->).
      apply IH in Ht'; [|lia].
      unfold Utf8.encode in *. cbn [flat_map]. rewrite Ht'.
      unfold Utf8.encode_cp. rewrite E1. cbn [app].
      f_equal. now apply byte_of_to_N. }
    destruct (in_range 194 223 (Byte.to_N b0)) eqn:E2.
    { destruct r0 as [|b1 r1]; [discriminate|].
      pose proof (Byte.to_N_bounded b1) as B1.
      destruct (Utf8.cont (Byte.to_N b1)) eqn:C1; [|discriminate].
      apply option_map_some in Hdec. destruct Hdec as (t' & Ht' & ->).
      apply IH in Ht'; [|simpl in Hlen; lia].
      unfold Utf8.encode in *. cbn [flat_map]. rewrite Ht'.
      unfold Utf8.encode_cp. ranges.
      set (c := ((Byte.to_N b0 - 192) * 64 + (Byte.to_N b1 - 128))%N).
      assert (Hc : (128 <= c < 2048)%N) by (subst c; lia).
      destruct (c <? 128)%N eqn:L1; [lia|].
      destruct (c <? 2048)%N eqn:L2; [|lia].
      cbv iota. cbn [app]. repeat f_equal; apply byte_of_to_N; subst c; lia. }
    destruct (in_range 224 239 (Byte.to_N b0)) eqn:E3.
    { destruct r0 as [|b1 [|b2 r2]]; try discriminate.
      pose proof (Byte.to_N_bounded b1) as B1.
      pose proof (Byte.to_N_bounded b2) as B2.
      destruct (Utf8.second3 (Byte.to_N b0) (Byte.to_N b1)
                && Utf8.cont (Byte.to_N b2)) eqn:C1; [|discriminate].
      apply option_map_some in Hdec. destruct Hdec as (t' & Ht' & ->).
      apply IH in Ht'; [|simpl in Hlen; lia].
      unfold Utf8.encode in *. cbn [flat_map]. rewrite Ht'.
      unfold Utf8.encode_cp.
      set (c := ((Byte.to_N b0 - 224) * 4096 + (Byte.to_N b1 - 128) * 64
                 + (Byte.to_N b2 - 128))%N).
      assert (Hc : (2048 <= c < 65536)%N) by (subst c; ranges; lia).
      destruct (c <? 128)%N eqn:L1; [lia|].
      destruct (c <? 2048)%N eqn:L2; [lia|].
      destruct (c <? 65536)%N eqn:L3; [|lia].
      cbv iota. cbn [app]. repeat f_equal;
        apply byte_of_to_N; subst c; ranges; lia. }
    destruct (in_range 240 244 (Byte.to_N b0)) eqn:E4; [|discriminate].
    destruct r0 as [|b1 [|b2 [|b3 r3]]]; try discriminate.
    pose proof (Byte.to_N_bounded b1) as B1.
    pose proof (Byte.to_N_bounded b2) as B2.
    pose proof (Byte.to_N_bounded b3) as B3.
    destruct (Utf8.second4 (Byte.to_N b0) (Byte.to_N b1)
              && Utf8.cont (Byte.to_N b2) && Utf8.cont (Byte.to_N b3)) eqn:C1;
      [|discriminate].
    apply option_map_some in Hdec. destruct Hdec as (t' & Ht' & ->).
    apply IH in Ht'; [|simpl in Hlen; lia].
    unfold Utf8.encode in *. cbn [flat_map]. rewrite Ht'.
    unfold Utf8.encode_cp.
    set (c := ((Byte.to_N b0 - 240) * 262144 + (Byte.to_N b1 - 128) * 4096
               + (Byte.to_N b2 - 128) * 64 + (Byte.to_N b3 - 128))%N).
    assert (Hc : (65536 <= c < 1114112)%N) by (subst c; ranges; lia).
    destruct (c <? 128)%N eqn:L1; [lia|].
    destruct (c <? 2048)%N eqn:L2; [lia|].
    destruct (c <? 65536)%N eqn:L3; [lia|].
    cbv iota. cbn [app]. repeat f_equal;
      apply byte_of_to_N; subst c; ranges; lia.
Qed.

(** Text decoded from bytes encodes back to the same bytes. *)
Lemma decode_encode (b : pybytes) (t : pystr) :
  Utf8.decode b = Some t -> Utf8.encode t = b.
Proof. apply (@decode_encode_bounded (List.length b)). lia. Qed.

Lemma hex_of_byte_lower (b : byte) :
  forallb Hex.is_lower_hex (Hex.of_byte b) = true.
Proof. destruct b; reflexivity. Qed.

Lemma unhex_of_byte (b : byte) (r : pystr) :
  Hex.unhex (Hex.of_byte b ++ r) = option_map (cons b) (Hex.unhex r).
Proof. destruct b; reflexivity. Qed.

Lemma hex_lower (b : pybytes) :
  Forall (fun c => Hex.is_lower_hex c = true) (Hex.hex b).
Proof.
  induction b as [|x b IH]; [constructor|].
  unfold Hex.hex. cbn [flat_map]. apply Forall_app. split; [|exact IH].
  apply Forall_forall. apply forallb_forall. apply hex_of_byte_lower.
Qed.

Lemma unhex_hex (b : pybytes) : Hex.unhex (Hex.hex b) = Some b.
Proof.
  induction b as [|x b IH]; [reflexivity|].
  unfold Hex.hex in *. cbn [flat_map].
  now rewrite unhex_of_byte, IH.
Qed.

Lemma to_N_byte_of_N (c : N) : (c < 256)%N -> Byte.to_N (byte_of_N c) = c.
Proof.
  intros Hc. unfold byte_of_N. rewrite N.mod_small by exact Hc.
  destruct (Byte.of_N c) as [b|] eqn:E.
  - now apply Byte.to_of_N.
  - apply Byte.of_N_None_iff in E. lia.
Qed.

(** Split on every test the goal branches on. *)
Ltac split_ifs :=
  repeat match goal with
  | |- context [if ?c then _ else _] => destruct c eqn:?
  end.

(** Decoding reads back one encoded scalar value. *)
Lemma decode_encode_cp (c : N) (r : pybytes) :
  is_scalar c ->
  Utf8.decode (Utf8.encode_cp c ++ r) = option_map (cons c) (Utf8.decode r).
Proof.
  intros Hc. unfold is_scalar in Hc. unfold Utf8.encode_cp.
  destruct (c <? 128)%N eqn:L1.
  { cbn [app Utf8.decode]. rewrite to_N_byte_of_N by lia. now rewrite L1. }
  destruct (c <? 2048)%N eqn:L2.
  { cbn [app Utf8.decode]. rewrite !to_N_byte_of_N by lia.
    unfold Utf8.cont, in_range.
    replace (192 + c / 64 <? 128)%N with false by lia.
    replace ((194 <=? 192 + c / 64) && (192 + c / 64 <=? 223))%N with true by lia.
    replace ((128 <=? 128 + c mod 64) && (128 + c mod 64 <=? 191))%N with true by lia.
    do 2 f_equal. lia. }
  destruct (c <? 65536)%N eqn:L3.
  { cbn [app Utf8.decode]. rewrite !to_N_byte_of_N by lia.
    replace (224 + c / 4096 <? 128)%N with false by lia.
    replace (in_range 194 223 (224 + c / 4096)) with false
      by (unfold in_range; lia).
    replace (in_range 224 239 (224 + c / 4096)) with true
      by (unfold in_range; lia).
    replace (Utf8.second3 (224 + c / 4096) (128 + (c / 64) mod 64)) with true
      by (unfold Utf8.second3, Utf8.cont, in_range; split_ifs; lia).
    replace (Utf8.cont (128 + c mod 64)) with true
      by (unfold Utf8.cont, in_range; lia).
    cbn [andb]. do 2 f_equal. lia. }
  cbn [app Utf8.decode]. rewrite !to_N_byte_of_N by lia.
  replace (240 + c / 262144 <? 128)%N with false by lia.
  replace (in_range 194 223 (240 + c / 262144)) with false
    by (unfold in_range; lia).
  replace (in_range 224 239 (240 + c / 262144)) with false
    by (unfold in_range; lia).
  replace (in_range 240 244 (240 + c / 262144)) with true
    by (unfold in_range; lia).
  replace (Utf8.second4 (240 + c / 262144) (128 + (c / 4096) mod 64)) with true
    by (unfold Utf8.second4, Utf8.cont, in_range; split_ifs; lia).
  replace (Utf8.cont (128 + (c / 64) mod 64)) with true
    by (unfold Utf8.cont, in_range; lia).
  replace (Utf8.cont (128 + c mod 64)) with true
    by (unfold Utf8.cont, in_range; lia).
  cbn [andb]. do 2 f_equal. lia.
Qed.

(** The UTF-8 form of a text of scalar values decodes to that text. *)
Lemma encode_decode (t : pystr) :
  Forall is_scalar t -> Utf8.decode (Utf8.encode t) = Some t.
Proof.
  induction 1 as [|c t Hc _ IH]; [reflexivity|].
  unfold Utf8.encode in *. cbn [flat_map].
  rewrite decode_encode_cp by exact Hc. now rewrite IH.
Qed.

Lemma decode_scalar_bounded (n : nat) :
  forall (b : pybytes) (t : pystr),
    List.length b <= n -> Utf8.decode b = Some t -> Forall is_scalar t.
Proof.
  induction n as [|n IH]; intros b t Hlen Hdec.
  - destruct b; [|simpl in Hlen; lia]. simpl in Hdec.
    inversion Hdec. constructor.
  - destruct b as [|b0 r0]; [simpl in Hdec; inversion Hdec; constructor|].
    simpl in Hlen. cbn [Utf8.decode] in Hdec.
    pose proof (Byte.to_N_bounded b0) as B0.
    destruct (Byte.to_N b0 <? 128)%N eqn:E1.
    { apply option_map_some in Hdec. destruct Hdec as (t' & Ht' & ->).
      apply IH in Ht'; [|lia]. constructor; [|exact Ht'].
      unfold is_scalar. lia. }
    destruct (in_range 194 223 (Byte.to_N b0)) eqn:E2.
    { destruct r0 as [|b1 r1]; [discriminate|].
      pose proof (Byte.to_N_bounded b1) as B1.
      destruct (Utf8.cont (Byte.to_N b1)) eqn:C1; [|discriminate].
      apply option_map_some in Hdec. destruct Hdec as (t' & Ht' & ->).
      apply IH in Ht'; [|simpl in Hlen; lia]. constructor; [|exact Ht'].
      unfold is_scalar. ranges. lia. }
    destruct (in_range 224 239 (Byte.to_N b0)) eqn:E3.
    { destruct r0 as [|b1 [|b2 r2]]; try discriminate.
      pose proof (Byte.to_N_bounded b1) as B1.
      pose proof (Byte.to_N_bounded b2) as B2.
      destruct (Utf8.second3 (Byte.to_N b0) (Byte.to_N b1)
                && Utf8.cont (Byte.to_N b2)) eqn:C1; [|discriminate].
      apply option_map_some in Hdec. destruct Hdec as (t' & Ht' & ->).
      apply IH in Ht'; [|simpl in Hlen; lia]. constructor; [|exact Ht'].
      unfold is_scalar. ranges; lia. }
    destruct (in_range 240 244 (Byte.to_N b0)) eqn:E4; [|discriminate].
    destruct r0 as [|b1 [|b2 [|b3 r3]]]; try discriminate.
    pose proof (Byte.to_N_bounded b1) as B1.
    pose proof (Byte.to_N_bounded b2) as B2.
    pose proof (Byte.to_N_bounded b3) as B3.
    destruct (Utf8.second4 (Byte.to_N b0) (Byte.to_N b1)
              && Utf8.cont (Byte.to_N b2) && Utf8.cont (Byte.to_N b3)) eqn:C1;
      [|discriminate].
    apply option_map_some in Hdec. destruct Hdec as (t' & Ht' & ->).
    apply IH in Ht'; [|simpl in Hlen; lia]. constructor; [|exact Ht'].
    unfold is_scalar. ranges; lia.
Qed.

(** The decoder yields scalar values only. *)
Lemma decode_scalar (b : pybytes) (t : pystr) :
  Utf8.decode b = Some t -> Forall is_scalar t.
Proof. apply (@decode_scalar_bounded (List.length b)). lia. Qed.

(** The decoder accepts exactly the valid byte strings. *)
Lemma valid_utf8_decode (b : pybytes) :
  valid_utf8 b <-> exists t, Utf8.decode b = Some t.
Proof.
  split.
  - intros (t & Ht & <-). exists t. now apply encode_decode.
  - intros (t & Ht). exists t. split.
    + now apply decode_scalar in Ht.
    + now apply decode_encode.
Qed.

(** C2.  Bytes that are valid UTF-8, that is the UTF-8 form of a text of
    Unicode scalar values, are rendered as exactly that text; a text is
    rendered as itself; bytes that are not valid UTF-8 are rendered as their
    lowercase hexadecimal form, from which hex-decoding gives the bytes
    back; and every byte string is of one kind or the other. *)
Theorem serialize_value_text_or_hex (isprintable : N -> bool) :
  (forall t : pystr, Forall is_scalar t ->
     _serialize_value isprintable (VBytes (Utf8.encode t)) = t)
  /\ (forall s : pystr, _serialize_value isprintable (VStr s) = s)
  /\ (forall b : pybytes, ~ valid_utf8 b ->
        _serialize_value isprintable (VBytes b) = Hex.hex b
        /\ Forall (fun c => Hex.is_lower_hex c = true)
                  (_serialize_value isprintable (VBytes b))
        /\ Hex.unhex (_serialize_value isprintable (VBytes b)) = Some b)
  /\ (forall b : pybytes, valid_utf8 b \/ ~ valid_utf8 b).
Proof.
  split; [|split; [|split]].
  - intros t Ht. unfold _serialize_value. now rewrite encode_decode.
  - reflexivity.
  - intros b Hb.
    assert (Hs : _serialize_value isprintable (VBytes b) = Hex.hex b).
    { unfold _serialize_value.
      destruct (Utf8.decode b) as [t|] eqn:Hd; [|reflexivity].
      exfalso. apply Hb. apply valid_utf8_decode. now exists t. }
    rewrite Hs. repeat split; [apply hex_lower | apply unhex_hex].
  - intros b. destruct (Utf8.decode b) as [t|] eqn:Hd.
    + left. apply valid_utf8_decode. now exists t.
    + right. intros Hv. apply valid_utf8_decode in Hv.
      destruct Hv as (t & Ht). congruence.
Qed.

(** C2 at work: the UTF-8 bytes of [c], e-acute, the euro sign and an
    emoji, one character each of one to four bytes, are rendered as these
    four characters; the lone byte [ff], which no text encodes, as [ff]. *)
Lemma serialize_value_text_or_hex_witness :
  _serialize_value (fun _ => true)
    (VBytes [x63; xc3; xa9; xe2; x82; xac; xf0; x9f; x98; x80])
  = [99; 233; 8364; 128512]%N
  /\ _serialize_value (fun _ => true) (VBytes [xff]) = lit "ff".
Proof.
  destruct (serialize_value_text_or_hex (fun _ => true)) as (Ht & _ & Hh & _).
  split.
  - apply (Ht [99; 233; 8364; 128512]%N).
    repeat constructor; unfold is_scalar; lia.
  - apply Hh. intros Hv. apply valid_utf8_decode in Hv.
    destruct Hv as (t & Hd). vm_compute in Hd. discriminate Hd.
Defined.

(** ** Tuples *)











(** ** Listing the tables *)

Lemma str_ltb_irrefl (a : pystr) : str_ltb a a = false.
Proof.
  induction a as [|x a IH]; [reflexivity|].
  simpl. now rewrite N.ltb_irrefl.
Qed.

Lemma str_ltb_trans (a b c : pystr) :
  str_ltb a b = true -> str_ltb b c = true -> str_ltb a c = true.
Proof.
  revert b c. induction a as [|x a IH]; intros [|y b] [|z c]; simpl;
    try discriminate; auto.
  destruct (x <? y)%N eqn:Exy, (y <? x)%N eqn:Eyx,
           (y <? z)%N eqn:Eyz, (z <? y)%N eqn:Ezy,
           (x <? z)%N eqn:Exz, (z <? x)%N eqn:Ezx;
    try discriminate; try lia; auto.
  intros H1 H2. eapply IH; eauto.
Qed.

Lemma str_ltb_total (a b : pystr) :
  str_ltb a b = false -> str_ltb b a = false -> a = b.
Proof.
  revert b. induction a as [|x a IH]; intros [|y b]; simpl;
    try discriminate; auto.
  destruct (x <? y)%N eqn:Exy, (y <? x)%N eqn:Eyx; try discriminate.
  intros H1 H2. f_equal; [lia|]. now apply IH.
Qed.

Lemma insert_sorted_perm (x : pystr) (l : list pystr) :
  Permutation (insert_sorted x l) (x :: l).
Proof.
  induction l as [|y r IH]; simpl; [reflexivity|].
  destruct (str_ltb y x); [|reflexivity].
  rewrite IH. apply perm_swap.
Qed.

Lemma sorted_perm (l : list pystr) : Permutation (sorted l) l.
Proof.
  induction l as [|x l IH]; simpl; [reflexivity|].
  rewrite insert_sorted_perm. now constructor.
Qed.

Lemma insert_sorted_strict (x : pystr) (l : list pystr) :
  StronglySorted str_lt l -> ~ In x l ->
  StronglySorted str_lt (insert_sorted x l).
Proof.
  induction l as [|y r IH]; intros Hs Hx; simpl.
  - repeat constructor.
  - apply StronglySorted_inv in Hs. destruct Hs as [Hr Hy].
    destruct (str_ltb y x) eqn:E.
    + constructor.
      * apply IH; [exact Hr|]. intros Hin. apply Hx. now right.
      * eapply Permutation_Forall.
        { symmetry. apply insert_sorted_perm. }
        constructor; [exact E | exact Hy].
    + assert (Hxy : str_lt x y).
      { unfold str_lt. destruct (str_ltb x y) eqn:E'; [reflexivity|].
        exfalso. apply Hx. left. now apply str_ltb_total. }
      constructor; [now constructor|].
      constructor; [exact Hxy|].
      eapply Forall_impl; [|exact Hy].
      intros z Hz. eapply str_ltb_trans; eauto.
Qed.

Lemma sorted_strict (l : list pystr) :
  NoDup l -> StronglySorted str_lt (sorted l).
Proof.
  induction 1 as [|x l Hx Hnd IH]; simpl; [constructor|].
  apply insert_sorted_strict; [exact IH|].
  intros Hin. apply Hx. eapply Permutation_in; [apply sorted_perm|exact Hin].
Qed.

Lemma startswith_app (k p : pystr) :
  startswith k p = true -> k = p ++ skipn (List.length p) k.
Proof.
  revert k. induction p as [|c p IH]; intros k H; [reflexivity|].
  destruct k as [|d k]; [discriminate|]. simpl in H.
  apply andb_prop in H. destruct H as [Hc Hp].
  apply N.eqb_eq in Hc. subst d. simpl. f_equal. now apply IH.
Qed.

Lemma startswith_prefix (p r : pystr) : startswith (p ++ r) p = true.
Proof.
  induction p as [|c p IH]; [now destruct r|].
  simpl. now rewrite N.eqb_refl.
Qed.

(** Under the [startswith] guard, [key.split(":", 1)[1]] is the key without
    its ["table:"] prefix. *)
Lemma split_table_key (key : pystr) :
  startswith key (lit "table:") = true ->
  nth_error (split_once 58 key) 1 = Some (skipn 6 key).
Proof.
  intros H. apply startswith_app in H. rewrite H. reflexivity.
Qed.

Lemma table_key_eq (k : pystr) :
  is_table_key k = true -> k = lit "table:" ++ skipn 6 k.
Proof. intros H. exact (startswith_app _ _ H). Qed.

Lemma collect_tables_spec (rs : list (pystr * pystr)) (acc : list pystr)
    (w : world) :
  collect_tables rs None acc w
  = (Ok (acc ++ map (skipn 6) (filter is_table_key (map fst rs))), w).
Proof.
  revert acc. induction rs as [|[key value] rs IH]; intros acc.
  - simpl. now rewrite app_nil_r.
  - cbn [collect_tables map fst filter]. unfold is_table_key at 1.
    destruct (startswith key (lit "table:")) eqn:E.
    + unfold bind, index. rewrite (split_table_key _ E).
      unfold ret at 1. rewrite IH. cbn [map]. now rewrite <- app_assoc.
    + apply IH.
Qed.

Lemma strip_prefix_injective (ks : list pystr) :
  NoDup ks -> NoDup (map (skipn 6) (filter is_table_key ks)).
Proof.
  induction 1 as [|k ks Hk Hnd IH]; simpl; [constructor|].
  destruct (is_table_key k) eqn:E; [|exact IH].
  cbn [map]. constructor; [|exact IH].
  intros Hin. apply in_map_iff in Hin. destruct Hin as (k' & Heq & Hin').
  apply filter_In in Hin'. destruct Hin' as [Hin' E'].
  apply table_key_eq in E, E'. apply Hk.
  replace k with k'; [exact Hin'|].
  rewrite E, E'. f_equal. exact Heq.
Qed.

Lemma stripped_names (ks : list pystr) (n : pystr) :
  In n (map (skipn 6) (filter is_table_key ks)) <-> In (lit "table:" ++ n) ks.
Proof.
  rewrite in_map_iff. split.
  - intros (k & Hn & Hin). apply filter_In in Hin. destruct Hin as [Hin E].
    apply table_key_eq in E. subst n. now rewrite <- E.
  - intros Hin. exists (lit "table:" ++ n). split; [reflexivity|].
    apply filter_In. split; [exact Hin|]. apply startswith_prefix.
Qed.

(** C4.  On a readable catalog with unique keys, [list_tables] returns a
    strictly ascending, duplicate-free list: exactly the metadata keys with
    the ["table:"] prefix, each without that prefix. *)
Theorem list_tables_strictly_ascending (w : world) (db : database) :
  conn w = Some db ->
  fault (metadata db) = None ->
  NoDup (map fst (rows (metadata db))) ->
  exists names w',
    list_tables w = (Ok names, w')
    /\ StronglySorted str_lt names
    /\ NoDup names
    /\ Permutation names
         (map (skipn 6) (filter is_table_key (map fst (rows (metadata db)))))
    /\ (forall n, In n names
                  <-> In (lit "table:" ++ n) (map fst (rows (metadata db)))).
Proof.
  intros Hc Hf Hnd.
  set (ks := map fst (rows (metadata db))) in *.
  set (raw := map (skipn 6) (filter is_table_key ks)).
  assert (Hraw : NoDup raw) by now apply strip_prefix_injective.
  exists (sorted raw). eexists. split; [|repeat split].
  - unfold list_tables, require_conn, bind at 1. rewrite Hc.
    unfold Engine.open_session, bind at 1.
    unfold try_finally, bind at 1.
    unfold Engine.open_metadata_cursor, Engine.new_cursor, bind, ret.
    cbn [fst snd]. rewrite Hf, collect_tables_spec. cbn [app].
    unfold Engine.close_cursor, Engine.close_session, modify. reflexivity.
  - now apply sorted_strict.
  - eapply Permutation_NoDup; [symmetry; apply sorted_perm|exact Hraw].
  - apply sorted_perm.
  - intros Hin. apply stripped_names.
    eapply Permutation_in; [apply sorted_perm|exact Hin].
  - intros Hin. eapply Permutation_in; [symmetry; apply sorted_perm|].
    now apply stripped_names.
Qed.

Lemma list_tables_strictly_ascending_witness :
  exists names w',
    list_tables Demo.opened = (Ok names, w')
    /\ StronglySorted str_lt names
    /\ NoDup names
    /\ Permutation names
         (map (skipn 6)
              (filter is_table_key (map fst (rows (metadata Demo.db)))))
    /\ (forall n, In n names
                  <-> In (lit "table:" ++ n)
                         (map fst (rows (metadata Demo.db)))).
Proof.
  apply (@list_tables_strictly_ascending Demo.opened Demo.db).
  - reflexivity.
  - reflexivity.
  - vm_compute.
    repeat (constructor;
            [intros H; repeat (destruct H as [H|H]; [discriminate H|]);
             exact H|]).
    constructor.
Defined.

(** ** The connection state *)

(** C6.  With no open connection each of the four operations raises the
    "not open" error at once and leaves the world as it was. *)
Theorem closed_operations_fail (isprintable : N -> bool) (w : world) :
  conn w = None ->
  list_tables w = (Raise not_open, w)
  /\ (forall name, get_table_info name w = (Raise not_open, w))
  /\ (forall name path limit,
        export_table_to_json isprintable name path limit w
        = (Raise not_open, w))
  /\ (forall name path limit,
        export_table_to_csv isprintable name path limit w
        = (Raise not_open, w)).
Proof.
  intros Hc. repeat split; intros;
    unfold list_tables, get_table_info, export_table_to_json,
           export_table_to_csv, bind, require_conn;
    now rewrite Hc.
Qed.

Lemma closed_operations_fail_witness :
  conn Demo.closed = None
  /\ list_tables Demo.closed = (Raise not_open, Demo.closed)
  /\ get_table_info (lit "users") Demo.closed = (Raise not_open, Demo.closed).
Proof.
  split; [reflexivity|].
  destruct (closed_operations_fail Demo.always_printable Demo.closed eq_refl)
    as (H1 & H2 & _).
  split; [exact H1 | apply H2].
Defined.

(** C9.  [close()] always returns normally and leaves the browser Closed; a
    second [close()] changes nothing at all.  On a Closed browser the first
    one already changes nothing; on an Open browser it releases the
    connection exactly once. *)
Theorem close_idempotent (w : world) :
  fst (close w) = Ok tt
  /\ conn (snd (close w)) = None
  /\ close (snd (close w)) = (Ok tt, snd (close w))
  /\ match conn w with
     | None => snd (close w) = w
     | Some _ => released (snd (close w)) = S (released w)
     end.
Proof.
  unfold close. destruct (conn w) eqn:Hc.
  - repeat split.
  - cbn [fst snd]. rewrite Hc. repeat split.
Qed.

(** ** Inspecting a table *)

Lemma str_eqb_eq (a b : pystr) : str_eqb a b = true <-> a = b.
Proof.
  revert b. induction a as [|x a IH]; intros [|y b]; simpl;
    try (split; [discriminate|discriminate]); [tauto|].
  rewrite andb_true_iff, N.eqb_eq, IH. split.
  - intros [-> ->]. reflexivity.
  - intros H. inversion H. auto.
Qed.

Lemma str_eqb_refl (a : pystr) : str_eqb a a = true.
Proof. now apply str_eqb_eq. Qed.

Lemma find_table_absent (key : pystr) (rs : list (pystr * pystr))
    (info : table_info) (w : world) :
  ~ In key (map fst rs) -> find_table key rs None info w = (Ok info, w).
Proof.
  induction rs as [|[k v] rs IH]; intros Hn; [reflexivity|].
  cbn [find_table]. destruct (str_eqb k key) eqn:E.
  - apply str_eqb_eq in E. exfalso. apply Hn. now left.
  - apply IH. intros Hin. apply Hn. now right.
Qed.

Lemma find_table_present (key : pystr) (rs : list (pystr * pystr))
    (flt : option pystr) (info : table_info) :
  In key (map fst rs) ->
  exists cfg,
    In (key, cfg) rs
    /\ forall w,
         find_table key rs flt info w
         = (Ok (TableInfo (info_name info) true (Some cfg)
                          (info_record_count info) (info_error info)), w).
Proof.
  induction rs as [|[k v] rs IH]; intros Hin; [destruct Hin|].
  cbn [find_table]. destruct (str_eqb k key) eqn:E.
  - apply str_eqb_eq in E. subst k. exists v. split; [now left|reflexivity].
  - destruct Hin as [Hk|Hin].
    + simpl in Hk. subst k. now rewrite str_eqb_refl in E.
    + destruct (IH Hin) as (cfg & Hc & Hf). exists cfg. split; [now right|].
      exact Hf.
Qed.

Lemma count_rows_fault {A} (rs : list A) (m : pystr) (count : Z) (w : world) :
  count_rows rs (Some m) count w = (Raise (WiredTigerError m), w).
Proof.
  revert count. induction rs as [|r rs IH]; intros count; [reflexivity|].
  apply IH.
Qed.

Lemma count_rows_complete {A} (rs : list A) (count : Z) (w : world) :
  count_rows rs None count w = (Ok (count + Z.of_nat (List.length rs))%Z, w).
Proof.
  revert count. induction rs as [|r rs IH]; intros count.
  - simpl. now rewrite Z.add_0_r.
  - cbn [count_rows]. rewrite IH. cbn [List.length]. do 2 f_equal. lia.
Qed.

(** The frame of [get_table_info] up to the end of the metadata loop. *)
Ltac enter_get_table_info Hc :=
  unfold get_table_info, require_conn, bind at 1; rewrite Hc;
  unfold Engine.open_session, bind at 1;
  unfold try_finally, bind at 1;
  unfold Engine.open_metadata_cursor, Engine.new_cursor, bind, ret;
  cbn [fst snd rows fault].

(** C5.  For a name with no entry in a readable catalog, [get_table_info]
    returns [{name, exists: False, config: None, record_count: 0}] with no
    error key, and raises nothing. *)
Theorem get_table_info_absent (w : world) (db : database) (name : pystr) :
  conn w = Some db ->
  fault (metadata db) = None ->
  ~ In (lit "table:" ++ name) (map fst (rows (metadata db))) ->
  exists w',
    get_table_info name w = (Ok (TableInfo name false None 0 None), w').
Proof.
  intros Hc Hf Hn. eexists.
  enter_get_table_info Hc.
  rewrite Hf, (find_table_absent _ _ _ _ Hn).
  cbn [info_exists]. unfold Engine.close_cursor, Engine.close_session, modify.
  reflexivity.
Qed.

Lemma get_table_info_absent_witness :
  exists w',
    get_table_info (lit "missing") Demo.opened
    = (Ok (TableInfo (lit "missing") false None 0 None), w').
Proof.
  apply (@get_table_info_absent Demo.opened Demo.db (lit "missing")).
  - reflexivity.
  - reflexivity.
  - vm_compute. intros H.
    repeat (destruct H as [H|H]; [discriminate H|]). exact H.
Defined.

(** C3, as the code has it.  When the table is in the catalog and its scan
    raises an engine error, at whatever row, [get_table_info] raises
    nothing: it returns the table's configuration, the message under
    ["error"], and a record count of 0, since the count is stored only once
    the scan has ended. *)
Theorem get_table_info_scan_error (w : world) (db : database)
    (name : pystr) (rs : list (Value * Value)) (m : pystr) :
  conn w = Some db ->
  In (lit "table:" ++ name) (map fst (rows (metadata db))) ->
  assoc name (tables db) = Some (Scan rs (Some m)) ->
  exists cfg w',
    In (lit "table:" ++ name, cfg) (rows (metadata db))
    /\ get_table_info name w
       = (Ok (TableInfo name true (Some cfg) 0
                (Some (lit "Could not count records: " ++ m))), w').
Proof.
  intros Hc Hin Ht.
  destruct (find_table_present (lit "table:" ++ name) (rows (metadata db))
              (fault (metadata db)) (TableInfo name false None 0 None) Hin)
    as (cfg & Hcfg & Hf).
  exists cfg. eexists. split; [exact Hcfg|].
  enter_get_table_info Hc.
  rewrite Hf. cbn [info_exists info_name info_config info_record_count
                   info_error].
  unfold try_except, Engine.open_table_cursor, Engine.close_cursor, modify.
  rewrite Ht. unfold bind, Engine.new_cursor, ret. cbn [rows fault].
  rewrite count_rows_fault. cbn [exn_str].
  unfold Engine.close_session, modify. reflexivity.
Qed.

Lemma get_table_info_scan_error_witness :
  exists cfg w',
    In (lit "table:damaged", cfg) (rows (metadata Demo.db))
    /\ get_table_info (lit "damaged") Demo.opened
       = (Ok (TableInfo (lit "damaged") true (Some cfg) 0
                (Some (lit "Could not count records: "
                       ++ lit "WT_PANIC: WiredTiger library panic"))), w').
Proof.
  apply (@get_table_info_scan_error Demo.opened Demo.db (lit "damaged")
           (rows Demo.damaged)).
  - reflexivity.
  - vm_compute. tauto.
  - reflexivity.
Defined.

(** C3, as the claim has it, fails: the damaged table yields two rows before
    its scan fails, and the count reported is 0, not 2. *)
Lemma get_table_info_partial_count_lost :
  List.length (rows Demo.damaged) = 2
  /\ fault Demo.damaged <> None
  /\ exists info,
       fst (get_table_info (lit "damaged") Demo.opened) = Ok info
       /\ info_error info <> None
       /\ info_record_count info = 0%Z
       /\ info_record_count info
          <> Z.of_nat (List.length (rows Demo.damaged)).
Proof.
  split; [reflexivity|]. split; [discriminate|].
  eexists. split; [vm_compute; reflexivity|].
  cbn [info_error info_record_count]. repeat split; try discriminate.
Qed.

(** ** Exporting a table *)

Lemma taken_closed_form (k : Z) (n : nat) (count : Z) :
  k <> 0%Z ->
  taken (Some k) n count = Nat.min (Z.to_nat (Z.max 1 (k - count))) n.
Proof.
  intros Hk. revert count. induction n as [|n IH]; intros count.
  - simpl. lia.
  - cbn [taken limit_reached].
    destruct (k =? 0)%Z eqn:E0; [lia|]. cbn [negb andb].
    destruct (k <=? count + 1)%Z eqn:E1.
    + lia.
    + rewrite IH. lia.
Qed.

Lemma taken_unlimited (limit : option Z) (n : nat) (count : Z) :
  limit = None \/ limit = Some 0%Z -> taken limit n count = n.
Proof.
  intros Hl. revert count. induction n as [|n IH]; intros count; [reflexivity|].
  cbn [taken]. destruct Hl as [-> | ->]; cbn [limit_reached Z.eqb negb andb];
    now rewrite IH by auto.
Qed.

Lemma taken_emitted (limit : option Z) (n : nat) :
  taken limit n 0 = emitted limit n.
Proof.
  destruct limit as [k|]; [|now apply taken_unlimited; left].
  unfold emitted. destruct (k =? 0)%Z eqn:E.
  - apply Z.eqb_eq in E. subst k. apply taken_unlimited. now right.
  - rewrite taken_closed_form by lia. now rewrite Z.sub_0_r.
Qed.

(** With a limit of at least one the loops stop at the limit or at the end of
    the table, whichever comes first; with no limit they reach the end. *)
Lemma emitted_positive (k : Z) (n : nat) :
  (1 <= k)%Z -> emitted (Some k) n = Nat.min (Z.to_nat k) n.
Proof.
  intros Hk. unfold emitted. destruct (k =? 0)%Z eqn:E; lia.
Qed.

Lemma emitted_none (n : nat) : emitted None n = n.
Proof. reflexivity. Qed.

(** A limit of zero is no limit. *)
Lemma emitted_zero (n : nat) : emitted (Some 0%Z) n = n.
Proof. reflexivity. Qed.

Lemma json_loop_complete (isprintable : N -> bool) (limit : option Z)
    (rs : list (Value * Value)) (recs : list (pystr * pystr)) (count : Z)
    (w : world) :
  json_loop isprintable limit rs None recs count w
  = (Ok (recs ++ map (render_row isprintable)
                     (firstn (taken limit (List.length rs) count) rs),
         (count + Z.of_nat (taken limit (List.length rs) count))%Z), w).
Proof.
  revert recs count. induction rs as [|[key value] rs IH]; intros recs count.
  - simpl. now rewrite app_nil_r, Z.add_0_r.
  - cbn [json_loop List.length taken].
    destruct (limit_reached limit (count + 1)) eqn:E.
    + unfold ret. cbn [firstn map]. reflexivity.
    + rewrite IH. cbn [firstn map]. rewrite <- app_assoc.
      unfold ret. do 3 f_equal. lia.
Qed.

(** The loop of the JSON export never touches the world. *)
Lemma json_loop_pure (isprintable : N -> bool) (limit : option Z)
    (rs : list (Value * Value)) (flt : option pystr)
    (recs : list (pystr * pystr)) (count : Z) (w : world) :
  snd (json_loop isprintable limit rs flt recs count w) = w.
Proof.
  revert recs count. induction rs as [|[key value] rs IH]; intros recs count.
  - simpl. now destruct flt.
  - cbn [json_loop]. destruct (limit_reached limit (count + 1)); [reflexivity|].
    apply IH.
Qed.

(** On a scan that ends in an engine error the loop either raises that
    error or was stopped by the limit at one of the rows; the world has no
    part in its result. *)
Lemma json_loop_fault (isprintable : N -> bool) (limit : option Z)
    (rs : list (Value * Value)) (m : pystr)
    (recs : list (pystr * pystr)) (count : Z) :
  exists r,
    (forall w, json_loop isprintable limit rs (Some m) recs count w = (r, w))
    /\ match r with
       | Raise e => e = WiredTigerError m
       | Ok _ => exists i, 1 <= i <= List.length rs
                           /\ limit_reached limit (count + Z.of_nat i) = true
       end.
Proof.
  revert recs count. induction rs as [|[key value] rs IH]; intros recs count.
  - eexists. split; [intros w; reflexivity|]. reflexivity.
  - cbn [json_loop]. destruct (limit_reached limit (count + 1)) eqn:E.
    + eexists. split; [intros w; reflexivity|].
      exists 1. split; [simpl; lia|exact E].
    + destruct (IH (recs ++ [(_serialize_value isprintable key,
                              _serialize_value isprintable value)])
                   (count + 1)%Z) as (r & Hrun & Hr).
      exists r. split; [exact Hrun|].
      destruct r as [a|e]; [|exact Hr].
      destruct Hr as (i & Hi & Hr). exists (S i). split; [simpl; lia|].
      rewrite <- Hr. f_equal. lia.
Qed.

Lemma assoc_put (p : pystr) (f : file) (fs : list (pystr * file)) :
  assoc p (Fs.put p f fs) = Some f.
Proof. unfold Fs.put. simpl. now rewrite str_eqb_refl. Qed.

(** The frame of both exports up to the table cursor. *)
Ltac enter_export Hc Ht :=
  unfold export_table_to_json, export_table_to_csv, require_conn, bind at 1;
  rewrite Hc;
  unfold Engine.open_session, bind at 1;
  unfold try_finally, bind at 1;
  unfold Engine.open_table_cursor; rewrite Ht;
  unfold bind at 2; unfold Engine.new_cursor, ret at 1;
  unfold bind at 1; cbn [rows fault].

(** What [export_table_to_json] writes for a table whose scan completes:
    the first [emitted limit N] rows in cursor order, rendered, under a
    [record_count] that is their number. *)
Lemma export_table_to_json_emits (isprintable : N -> bool) (w : world)
    (db : database) (name path : pystr) (limit : option Z)
    (rs : list (Value * Value)) :
  conn w = Some db ->
  assoc name (tables db) = Some (Scan rs None) ->
  exists w',
    export_table_to_json isprintable name path limit w = (Ok tt, w')
    /\ assoc path (files w')
       = Some (JsonFile
           (JsonDoc name (Z.of_nat (emitted limit (List.length rs)))
              (map (render_row isprintable)
                   (firstn (emitted limit (List.length rs)) rs)))).
Proof.
  intros Hc Ht. eexists. split.
  - enter_export Hc Ht. rewrite json_loop_complete.
    unfold bind, Engine.close_cursor, Fs.mkdir_parent, Fs.write, print,
      Engine.close_session, modify.
    reflexivity.
  - cbn [files set_files set_handles set_parents set_stdout].
    rewrite assoc_put, taken_emitted. reflexivity.
Qed.

(** What the loop of the CSV export does to a file that is open at [path]:
    one line per row gone through, after the lines already there. *)
Lemma csv_loop_complete (isprintable : N -> bool) (limit : option Z)
    (path : pystr) (rs : list (Value * Value)) (count : Z) (w : world)
    (ls : list (list pystr)) :
  assoc path (files w) = Some (CsvFile ls) ->
  exists fs,
    csv_loop isprintable limit path rs None count w
    = (Ok (count + Z.of_nat (taken limit (List.length rs) count))%Z,
       set_files fs w)
    /\ assoc path fs
       = Some (CsvFile
           (ls ++ map (fun kv => csv_line (render_row isprintable kv))
                      (firstn (taken limit (List.length rs) count) rs))).
Proof.
  revert count w ls. induction rs as [|[key value] rs IH]; intros count w ls Hf.
  - exists (files w). split.
    + simpl. unfold ret. rewrite Z.add_0_r. now destruct w.
    + simpl. now rewrite app_nil_r.
  - cbn [csv_loop List.length taken]. unfold bind, Fs.writerow, modify.
    rewrite Hf.
    destruct (limit_reached limit (count + 1)) eqn:E.
    + eexists. split; [reflexivity|]. now rewrite assoc_put.
    + edestruct (IH (count + 1)%Z
                   (set_files (Fs.put path
                      (CsvFile (ls ++ [[_serialize_value isprintable key;
                                        _serialize_value isprintable value]]))
                      (files w)) w)) as (fs & Hrun & Hfs).
      { cbn [files set_files]. apply assoc_put. }
      exists fs. split.
      * rewrite Hrun. f_equal. f_equal. lia.
      * rewrite Hfs. cbn [firstn map]. now rewrite <- app_assoc.
Qed.

(** What [export_table_to_csv] writes for a table whose scan completes: the
    header and then the first [emitted limit N] rows in cursor order. *)
Lemma export_table_to_csv_emits (isprintable : N -> bool) (w : world)
    (db : database) (name path : pystr) (limit : option Z)
    (rs : list (Value * Value)) :
  conn w = Some db ->
  assoc name (tables db) = Some (Scan rs None) ->
  exists w',
    export_table_to_csv isprintable name path limit w = (Ok tt, w')
    /\ assoc path (files w')
       = Some (CsvFile
           ([lit "key"; lit "value"]
            :: map (fun kv => csv_line (render_row isprintable kv))
                   (firstn (emitted limit (List.length rs)) rs))).
Proof.
  intros Hc Ht.
  enter_export Hc Ht.
  unfold bind at 1. unfold Fs.mkdir_parent at 1. unfold modify at 1.
  unfold bind at 1. unfold Fs.write at 1. unfold modify at 1.
  unfold bind at 1. unfold Fs.writerow at 1. unfold modify at 1.
  cbn [files set_files set_handles set_parents]. rewrite assoc_put.
  unfold bind at 1.
  match goal with
  | |- context [csv_loop _ _ _ _ _ _ ?w0] =>
    destruct (@csv_loop_complete isprintable limit path rs 0 w0
                [[lit "key"; lit "value"]]) as (fs & Hrun & Hfs);
      [cbn [files set_files]; apply assoc_put|]
  end.
  rewrite Hrun. eexists. split.
  - unfold bind, Engine.close_cursor, print, Engine.close_session, modify.
    reflexivity.
  - cbn [files set_files set_handles set_parents set_stdout].
    rewrite Hfs, taken_emitted. reflexivity.
Qed.

Lemma export_table_to_json_on_fault (isprintable : N -> bool) (w : world)
    (db : database) (name path : pystr) (limit : option Z)
    (rs : list (Value * Value)) (m : pystr) :
  conn w = Some db ->
  assoc name (tables db) = Some (Scan rs (Some m)) ->
  exists r w',
    export_table_to_json isprintable name path limit w = (r, w')
    /\ match r with
       | Raise e =>
           e = WiredTigerError m /\ files w' = files w
           /\ parents w' = parents w /\ stdout w' = stdout w
       | Ok _ =>
           exists i, 1 <= i <= List.length rs
                     /\ limit_reached limit (Z.of_nat i) = true
       end.
Proof.
  intros Hc Ht.
  destruct (json_loop_fault isprintable limit rs m [] 0) as (r & Hrun & Hr).
  destruct r as [[recs n]|e]; do 2 eexists;
    (split; [enter_export Hc Ht; rewrite Hrun;
             unfold bind, Engine.close_cursor, Fs.mkdir_parent, Fs.write,
               print, Engine.close_session, modify;
             reflexivity|]).
  - exact Hr.
  - repeat split. exact Hr.
Qed.

(** C10.  When the scan of the exported table ends in an engine error, a
    call of [export_table_to_json] either raises that error, and then the
    file system holds exactly what it held before (no file written, no
    directory made, nothing printed), or it returned because the limit
    stopped the loop at one of the rows before the error. *)
Theorem export_table_to_json_atomic (isprintable : N -> bool) (w : world)
    (db : database) (name path : pystr) (limit : option Z)
    (rs : list (Value * Value)) (m : pystr) :
  conn w = Some db ->
  assoc name (tables db) = Some (Scan rs (Some m)) ->
  match fst (export_table_to_json isprintable name path limit w) with
  | Raise e =>
      e = WiredTigerError m
      /\ files (snd (export_table_to_json isprintable name path limit w))
         = files w
      /\ parents (snd (export_table_to_json isprintable name path limit w))
         = parents w
      /\ stdout (snd (export_table_to_json isprintable name path limit w))
         = stdout w
  | Ok _ =>
      exists i, 1 <= i <= List.length rs
                /\ limit_reached limit (Z.of_nat i) = true
  end.
Proof.
  intros Hc Ht.
  destruct (export_table_to_json_on_fault isprintable w name path limit Hc Ht)
    as (r & w' & E & H).
  rewrite E. exact H.
Qed.

Lemma export_table_to_json_atomic_witness :
  fst (export_table_to_json Demo.always_printable (lit "damaged")
         (lit "out/damaged.json") None Demo.opened)
  = Raise (WiredTigerError (lit "WT_PANIC: WiredTiger library panic"))
  /\ files (snd (export_table_to_json Demo.always_printable (lit "damaged")
                   (lit "out/damaged.json") None Demo.opened))
     = files Demo.opened.
Proof.
  pose proof (@export_table_to_json_atomic Demo.always_printable Demo.opened
                Demo.db (lit "damaged") (lit "out/damaged.json") None
                (rows Demo.damaged)
                (lit "WT_PANIC: WiredTiger library panic")
                eq_refl eq_refl) as H.
  change (fst (export_table_to_json Demo.always_printable (lit "damaged")
                 (lit "out/damaged.json") None Demo.opened))
    with (@Raise unit
            (WiredTigerError (lit "WT_PANIC: WiredTiger library panic")))
    in H.
  split; [reflexivity | apply H].
Defined.

(** C1 at a limit of zero.  The users table has three records; exported
    with [limit=0], the JSON document holds all three under
    [record_count = 3] and the CSV file holds the header and three lines,
    where a limit of zero asks for none. *)
Theorem export_limit_zero_exports_all :
  List.length (rows Demo.users) = 3
  /\ (exists w',
        export_table_to_json Demo.always_printable (lit "users")
          (lit "out/users.json") (Some 0%Z) Demo.opened = (Ok tt, w')
        /\ assoc (lit "out/users.json") (files w')
           = Some (JsonFile
               (JsonDoc (lit "users") 3
                  (map (render_row Demo.always_printable) (rows Demo.users)))))
  /\ (exists w',
        export_table_to_csv Demo.always_printable (lit "users")
          (lit "out/users.csv") (Some 0%Z) Demo.opened = (Ok tt, w')
        /\ assoc (lit "out/users.csv") (files w')
           = Some (CsvFile
               ([lit "key"; lit "value"]
                :: map (fun kv =>
                          csv_line (render_row Demo.always_printable kv))
                       (rows Demo.users)))).
Proof.
  split; [reflexivity|]. split.
  - destruct (@export_table_to_json_emits Demo.always_printable Demo.opened
                Demo.db (lit "users") (lit "out/users.json") (Some 0%Z)
                (rows Demo.users) eq_refl eq_refl) as (w' & Hrun & Hfile).
    exists w'. split; [exact Hrun|]. rewrite Hfile. reflexivity.
  - destruct (@export_table_to_csv_emits Demo.always_printable Demo.opened
                Demo.db (lit "users") (lit "out/users.csv") (Some 0%Z)
                (rows Demo.users) eq_refl eq_refl) as (w' & Hrun & Hfile).
    exists w'. split; [exact Hrun|]. rewrite Hfile. reflexivity.
Qed.

(** The part of C1 the code keeps: with a limit of at least one, or with no
    limit, both exports write the first [min(limit, N)] rows, or all [N],
    in cursor order, and the JSON [record_count] is their number. *)
Lemma export_respects_positive_limit (isprintable : N -> bool) (w : world)
    (db : database) (name path : pystr) (limit : option Z)
    (rs : list (Value * Value)) :
  conn w = Some db ->
  assoc name (tables db) = Some (Scan rs None) ->
  (limit = None \/ exists k, limit = Some k /\ (1 <= k)%Z) ->
  let n := match limit with
           | Some k => Nat.min (Z.to_nat k) (List.length rs)
           | None => List.length rs
           end in
  (exists w',
     export_table_to_json isprintable name path limit w = (Ok tt, w')
     /\ assoc path (files w')
        = Some (JsonFile (JsonDoc name (Z.of_nat n)
                  (map (render_row isprintable) (firstn n rs)))))
  /\ (exists w',
        export_table_to_csv isprintable name path limit w = (Ok tt, w')
        /\ assoc path (files w')
           = Some (CsvFile
               ([lit "key"; lit "value"]
                :: map (fun kv => csv_line (render_row isprintable kv))
                       (firstn n rs)))).
Proof.
  intros Hc Ht Hl n.
  assert (Hn : emitted limit (List.length rs) = n).
  { subst n. destruct Hl as [-> | (k & -> & Hk)]; [reflexivity|].
    now apply emitted_positive. }
  rewrite <- Hn. split.
  - now apply export_table_to_json_emits with (db := db).
  - now apply export_table_to_csv_emits with (db := db).
Qed.

(** ** Sessions and cursors *)

Section Keeps.

Variables s n0 : nat.

Lemma keeps_ret {A} (a : A) (P : A -> Prop) : P a -> keeps s n0 (ret a) P.
Proof.
  intros HP w Hw. cbn. repeat split; try apply Hw.
  intros a' H. inversion H. now subst a'.
Qed.

Lemma keeps_raise {A} (e : exn) (P : A -> Prop) : keeps s n0 (raise e) P.
Proof.
  intros w Hw. cbn. repeat split; try apply Hw. discriminate.
Qed.

Lemma keeps_bind {A B} (m : M A) (k : A -> M B)
    (P : A -> Prop) (Q : B -> Prop) :
  keeps s n0 m P -> (forall a, P a -> keeps s n0 (k a) Q) ->
  keeps s n0 (bind m k) Q.
Proof.
  intros Hm Hk w Hw. destruct (Hm w Hw) as (Hi & Hs & Ho & HP).
  unfold bind. destruct (m w) as [[a|e] w1]; cbn [fst snd] in *.
  - destruct (Hk a (HP a eq_refl) w1 Hi) as (Hi' & Hs' & Ho' & HQ).
    repeat split; try apply Hi'; try congruence. exact HQ.
  - repeat split; try apply Hi; try assumption. discriminate.
Qed.

Lemma keeps_try_except {A} (body : M A) (handler : exn -> M A)
    (P Q : A -> Prop) :
  keeps s n0 body P -> (forall a, P a -> Q a) ->
  (forall e, keeps s n0 (handler e) Q) ->
  keeps s n0 (try_except body handler) Q.
Proof.
  intros Hb HPQ Hh w Hw. destruct (Hb w Hw) as (Hi & Hs & Ho & HP).
  unfold try_except. destruct (body w) as [[a|e] w1]; cbn [fst snd] in *.
  - repeat split; try apply Hi; try assumption.
    intros a' H. inversion H. subst a'. auto.
  - destruct (Hh e w1 Hi) as (Hi' & Hs' & Ho' & HQ).
    repeat split; try apply Hi'; try congruence. exact HQ.
Qed.

(** A step that leaves the engine's handles alone. *)
Lemma keeps_frame (f : world -> world) :
  (forall w, next_handle (f w) = next_handle w
             /\ sessions (f w) = sessions w
             /\ cursors (f w) = cursors w) ->
  keeps s n0 (modify f) (fun _ => True).
Proof.
  intros Hf w [Hn Ho]. destruct (Hf w) as (H1 & H2 & H3).
  unfold modify, in_session, others. cbn [fst snd].
  rewrite H1, H2, H3. repeat split; auto.
Qed.

Lemma keeps_new_cursor :
  keeps s n0 (Engine.new_cursor s) (fun c => n0 <= c).
Proof.
  intros w [Hn Ho]. unfold Engine.new_cursor, in_session, others.
  cbn [fst snd set_handles next_handle sessions cursors filter].
  rewrite Nat.eqb_refl. cbn [negb].
  repeat split; auto.
  intros a H. inversion H. now subst a.
Qed.

Lemma keeps_close_cursor (c : nat) :
  n0 <= c -> keeps s n0 (Engine.close_cursor c) (fun _ => True).
Proof.
  intros Hc w [Hn Ho].
  assert (E : others s (snd (Engine.close_cursor c w)) = others s w).
  { unfold Engine.close_cursor, modify, others in *.
    cbn [fst snd set_handles cursors].
    induction (cursors w) as [|e l IH]; [reflexivity|].
    cbn [filter] in *. destruct (negb (Nat.eqb (snd e) s)) eqn:Es.
    - apply Forall_inv in Ho as He. apply Forall_inv_tail in Ho.
      assert (Nat.eqb (fst e) c = false) as -> by (apply Nat.eqb_neq; lia).
      cbn [negb filter]. rewrite Es. f_equal. now apply IH.
    - destruct (negb (Nat.eqb (fst e) c)); cbn [filter]; rewrite ?Es;
        now apply IH. }
  unfold in_session. rewrite E. repeat split; auto.
Qed.

Lemma keeps_index {A} (xs : list A) (i : nat) :
  keeps s n0 (index xs i) (fun _ => True).
Proof.
  unfold index. destruct (nth_error xs i).
  - now apply keeps_ret.
  - apply keeps_raise.
Qed.

Lemma keeps_end_of_scan {A} (flt : option pystr) (a : A) :
  keeps s n0 (match flt with
              | None => ret a
              | Some m => raise (WiredTigerError m)
              end) (fun _ => True).
Proof. destruct flt; [apply keeps_raise | now apply keeps_ret]. Qed.

Lemma keeps_collect_tables (rs : list (pystr * pystr)) (flt : option pystr)
    (acc : list pystr) :
  keeps s n0 (collect_tables rs flt acc) (fun _ => True).
Proof.
  revert acc. induction rs as [|[key value] rs IH]; intros acc;
    cbn [collect_tables].
  - apply keeps_end_of_scan.
  - destruct (startswith key (lit "table:")); [|apply IH].
    eapply keeps_bind; [apply keeps_index|]. intros name _. apply IH.
Qed.

Lemma keeps_find_table (key : pystr) (rs : list (pystr * pystr))
    (flt : option pystr) (info : table_info) :
  keeps s n0 (find_table key rs flt info) (fun _ => True).
Proof.
  induction rs as [|[k v] rs IH]; cbn [find_table].
  - apply keeps_end_of_scan.
  - destruct (str_eqb k key); [now apply keeps_ret | apply IH].
Qed.

Lemma keeps_count_rows {A} (rs : list A) (flt : option pystr) (count : Z) :
  keeps s n0 (count_rows rs flt count) (fun _ => True).
Proof.
  revert count. induction rs as [|r rs IH]; intros count; cbn [count_rows].
  - apply keeps_end_of_scan.
  - apply IH.
Qed.

Lemma keeps_json_loop (isprintable : N -> bool) (limit : option Z)
    (rs : list (Value * Value)) (flt : option pystr)
    (recs : list (pystr * pystr)) (count : Z) :
  keeps s n0 (json_loop isprintable limit rs flt recs count)
        (fun _ => True).
Proof.
  revert recs count. induction rs as [|[key value] rs IH];
    intros recs count; cbn [json_loop].
  - apply keeps_end_of_scan.
  - destruct (limit_reached limit (count + 1));
      [now apply keeps_ret | apply IH].
Qed.

Lemma keeps_print (line : pystr) : keeps s n0 (print line) (fun _ => True).
Proof. apply keeps_frame. intros w. now destruct w. Qed.

Lemma keeps_mkdir_parent (p : pystr) :
  keeps s n0 (Fs.mkdir_parent p) (fun _ => True).
Proof. apply keeps_frame. intros w. now destruct w. Qed.

Lemma keeps_write (p : pystr) (f : file) :
  keeps s n0 (Fs.write p f) (fun _ => True).
Proof. apply keeps_frame. intros w. now destruct w. Qed.

Lemma keeps_writerow (p : pystr) (row : list pystr) :
  keeps s n0 (Fs.writerow p row) (fun _ => True).
Proof.
  apply keeps_frame. intros w.
  destruct (assoc p (files w)) as [[d|ls]|]; now destruct w.
Qed.

Lemma keeps_csv_loop (isprintable : N -> bool) (limit : option Z)
    (path : pystr) (rs : list (Value * Value)) (flt : option pystr)
    (count : Z) :
  keeps s n0 (csv_loop isprintable limit path rs flt count) (fun _ => True).
Proof.
  revert count. induction rs as [|[key value] rs IH]; intros count;
    cbn [csv_loop].
  - apply keeps_end_of_scan.
  - eapply keeps_bind; [apply keeps_writerow|]. intros _ _.
    destruct (limit_reached limit (count + 1));
      [now apply keeps_ret | apply IH].
Qed.

Lemma keeps_open_metadata_cursor (db : database) :
  keeps s n0 (Engine.open_metadata_cursor db s) (fun r => n0 <= fst r).
Proof.
  unfold Engine.open_metadata_cursor.
  eapply keeps_bind; [apply keeps_new_cursor|].
  intros c Hc. now apply keeps_ret.
Qed.

Lemma keeps_open_table_cursor (db : database) (name : pystr) :
  keeps s n0 (Engine.open_table_cursor db s name) (fun r => n0 <= fst r).
Proof.
  unfold Engine.open_table_cursor. destruct (assoc name (tables db)).
  - eapply keeps_bind; [apply keeps_new_cursor|].
    intros c Hc. now apply keeps_ret.
  - apply keeps_raise.
Qed.

End Keeps.

Lemma filter_all {A} (f : A -> bool) (l : list A) :
  Forall (fun x => f x = true) l -> filter f l = l.
Proof.
  induction 1 as [|x l Hx Hl IH]; [reflexivity|].
  simpl. rewrite Hx. now f_equal.
Qed.

(** A body that runs inside its session leaves, once the session is closed,
    exactly the sessions and cursors that were open before. *)
Lemma scoped_releases {A} (body : nat -> M A) (w : world) :
  (forall s n0, keeps s n0 (body s) (fun _ => True)) ->
  handles_fresh w ->
  sessions (snd (scoped body w)) = sessions w
  /\ cursors (snd (scoped body w)) = cursors w
  /\ next_handle w < next_handle (snd (scoped body w)).
Proof.
  intros Hb [Hs Hc].
  set (s := next_handle w).
  set (w1 := set_handles (S s) (s :: sessions w) (cursors w) w).
  assert (Hsess : filter (fun s' => negb (Nat.eqb s' s)) (sessions w)
                  = sessions w).
  { apply filter_all. eapply Forall_impl; [|exact Hs].
    intros x Hx. cbv beta in Hx. apply negb_true_iff, Nat.eqb_neq. lia. }
  assert (Hcur : others s w1 = cursors w).
  { unfold others, w1. cbn [set_handles cursors].
    apply filter_all. eapply Forall_impl; [|exact Hc].
    intros e He. cbv beta in He. apply negb_true_iff, Nat.eqb_neq. lia. }
  assert (Hin : in_session s (S s) w1).
  { split; [unfold w1; cbn; lia|]. rewrite Hcur.
    eapply Forall_impl; [|exact Hc]. intros e He. cbv beta in He. lia. }
  destruct (Hb s (S s) w1 Hin) as ((Hn & _) & Hs' & Ho' & _).
  unfold scoped, bind, Engine.open_session, try_finally.
  fold s. fold w1. destruct (body s w1) as [r wb]. cbn [fst snd] in *.
  unfold Engine.close_session, modify.
  cbn [fst snd set_handles sessions cursors next_handle].
  fold (others s wb). rewrite Hs', Ho', Hcur.
  unfold w1 at 1. cbn [set_handles sessions filter].
  rewrite Nat.eqb_refl. cbn [negb]. rewrite Hsess.
  repeat split. lia.
Qed.

Lemma keeps_list_tables_body (db : database) (s n0 : nat) :
  keeps s n0
    ('(cursor, sc) <- Engine.open_metadata_cursor db s ;;
     tables <- collect_tables (rows sc) (fault sc) [] ;;
     Engine.close_cursor cursor ;;
     ret tables) (fun _ => True).
Proof.
  eapply keeps_bind; [apply keeps_open_metadata_cursor|].
  intros [cursor sc] Hc.
  eapply keeps_bind; [apply keeps_collect_tables|]. intros tables _.
  eapply keeps_bind; [apply keeps_close_cursor; exact Hc|]. intros _ _.
  now apply keeps_ret.
Qed.

Lemma keeps_get_table_info_body (db : database) (name : pystr) (s n0 : nat) :
  keeps s n0
    ('(metadata_cursor, sc) <- Engine.open_metadata_cursor db s ;;
     let metadata_key := lit "table:" ++ name in
     info <- find_table metadata_key (rows sc) (fault sc)
               (TableInfo name false None 0 None) ;;
     Engine.close_cursor metadata_cursor ;;
     if info_exists info then
       try_except
         ('(cursor, tsc) <- Engine.open_table_cursor db s name ;;
          count <- count_rows (rows tsc) (fault tsc) 0 ;;
          let info := TableInfo (info_name info) (info_exists info)
                                (info_config info) count (info_error info) in
          Engine.close_cursor cursor ;;
          ret info)
         (fun e =>
            ret (TableInfo (info_name info) (info_exists info)
                   (info_config info) (info_record_count info)
                   (Some (lit "Could not count records: " ++ exn_str e))))
     else ret info) (fun _ => True).
Proof.
  eapply keeps_bind; [apply keeps_open_metadata_cursor|].
  intros [metadata_cursor sc] Hc.
  eapply keeps_bind; [apply keeps_find_table|]. intros info _.
  eapply keeps_bind; [apply keeps_close_cursor; exact Hc|]. intros _ _.
  destruct (info_exists info); [|now apply keeps_ret].
  eapply keeps_try_except with (P := fun _ => True); auto.
  - eapply keeps_bind; [apply keeps_open_table_cursor|].
    intros [cursor tsc] Hc'.
    eapply keeps_bind; [apply keeps_count_rows|]. intros count _.
    eapply keeps_bind; [apply keeps_close_cursor; exact Hc'|]. intros _ _.
    now apply keeps_ret.
  - intros e. now apply keeps_ret.
Qed.

Lemma keeps_export_json_body (isprintable : N -> bool) (db : database)
    (name path : pystr) (limit : option Z) (s n0 : nat) :
  keeps s n0
    ('(cursor, sc) <- Engine.open_table_cursor db s name ;;
     '(recs, count) <- json_loop isprintable limit (rows sc) (fault sc) [] 0 ;;
     Engine.close_cursor cursor ;;
     Fs.mkdir_parent path ;;
     Fs.write path (JsonFile (JsonDoc name count recs)) ;;
     print (exported_line count name path)) (fun _ => True).
Proof.
  eapply keeps_bind; [apply keeps_open_table_cursor|].
  intros [cursor sc] Hc.
  eapply keeps_bind; [apply keeps_json_loop|]. intros [recs count] _.
  eapply keeps_bind; [apply keeps_close_cursor; exact Hc|]. intros _ _.
  eapply keeps_bind; [apply keeps_mkdir_parent|]. intros _ _.
  eapply keeps_bind; [apply keeps_write|]. intros _ _.
  apply keeps_print.
Qed.

Lemma keeps_export_csv_body (isprintable : N -> bool) (db : database)
    (name path : pystr) (limit : option Z) (s n0 : nat) :
  keeps s n0
    ('(cursor, sc) <- Engine.open_table_cursor db s name ;;
     Fs.mkdir_parent path ;;
     Fs.write path (CsvFile []) ;;
     Fs.writerow path [lit "key"; lit "value"] ;;
     count <- csv_loop isprintable limit path (rows sc) (fault sc) 0 ;;
     Engine.close_cursor cursor ;;
     print (exported_line count name path)) (fun _ => True).
Proof.
  eapply keeps_bind; [apply keeps_open_table_cursor|].
  intros [cursor sc] Hc.
  eapply keeps_bind; [apply keeps_mkdir_parent|]. intros _ _.
  eapply keeps_bind; [apply keeps_write|]. intros _ _.
  eapply keeps_bind; [apply keeps_writerow|]. intros _ _.
  eapply keeps_bind; [apply keeps_csv_loop|]. intros count _.
  eapply keeps_bind; [apply keeps_close_cursor; exact Hc|]. intros _ _.
  apply keeps_print.
Qed.

(** The connection test in front of an operation opens nothing. *)
Lemma guarded_releases {A} (m : database -> M A) (w : world) :
  (forall db, sessions (snd (m db w)) = sessions w
              /\ cursors (snd (m db w)) = cursors w) ->
  sessions (snd ((db <- require_conn ;; m db) w)) = sessions w
  /\ cursors (snd ((db <- require_conn ;; m db) w)) = cursors w.
Proof.
  intros H. unfold bind, require_conn.
  destruct (conn w) as [db|]; [apply H | split; reflexivity].
Qed.

Lemma bind_assoc {A B C} (m : M A) (k : A -> M B) (h : B -> M C) (w : world) :
  (a <- m ;; b <- k a ;; h b) w = (b <- (a <- m ;; k a) ;; h b) w.
Proof.
  unfold bind. destruct (m w) as [[a|e] w1]; reflexivity.
Qed.

Lemma bind_ret_world {A B} (m : M A) (f : A -> B) (w : world) :
  snd ((a <- m ;; ret (f a)) w) = snd (m w).
Proof.
  unfold bind, ret. destruct (m w) as [[a|e] w1]; reflexivity.
Qed.

(** C7.  Whatever an operation returns or raises, the sessions and cursors
    open after it are exactly those open before it: the session it opened is
    closed on every path, and every cursor it opened is closed either by
    [cursor.close()] or, on the paths that skip it, with the session. *)
Theorem sessions_and_cursors_released (isprintable : N -> bool) (w : world) :
  handles_fresh w ->
  (sessions (snd (list_tables w)) = sessions w
   /\ cursors (snd (list_tables w)) = cursors w)
  /\ (forall name,
        sessions (snd (get_table_info name w)) = sessions w
        /\ cursors (snd (get_table_info name w)) = cursors w)
  /\ (forall name path limit,
        sessions (snd (export_table_to_json isprintable name path limit w))
        = sessions w
        /\ cursors (snd (export_table_to_json isprintable name path limit w))
           = cursors w)
  /\ (forall name path limit,
        sessions (snd (export_table_to_csv isprintable name path limit w))
        = sessions w
        /\ cursors (snd (export_table_to_csv isprintable name path limit w))
           = cursors w).
Proof.
  intros Hw. split; [|split; [|split]]; intros.
  - unfold list_tables. apply guarded_releases. intros db.
    destruct (@scoped_releases _ _ w (keeps_list_tables_body db) Hw)
      as (H1 & H2 & _).
    rewrite (bind_assoc Engine.open_session), bind_ret_world.
    split; [exact H1 | exact H2].
  - unfold get_table_info. apply guarded_releases. intros db.
    destruct (@scoped_releases _ _ w (keeps_get_table_info_body db name) Hw)
      as (H1 & H2 & _).
    split; [exact H1 | exact H2].
  - unfold export_table_to_json. apply guarded_releases. intros db.
    destruct (@scoped_releases _ _ w
                (keeps_export_json_body isprintable db name path limit) Hw)
      as (H1 & H2 & _).
    split; [exact H1 | exact H2].
  - unfold export_table_to_csv. apply guarded_releases. intros db.
    destruct (@scoped_releases _ _ w
                (keeps_export_csv_body isprintable db name path limit) Hw)
      as (H1 & H2 & _).
    split; [exact H1 | exact H2].
Qed.

Lemma sessions_and_cursors_released_witness :
  handles_fresh Demo.busy
  /\ sessions (snd (get_table_info (lit "damaged") Demo.busy)) = [0]
  /\ cursors (snd (export_table_to_csv Demo.always_printable (lit "damaged")
                     (lit "out/damaged.csv") (Some 1%Z) Demo.busy))
     = [(1, 0)].
Proof.
  assert (H : handles_fresh Demo.busy).
  { split; repeat constructor. }
  split; [exact H|].
  destruct (sessions_and_cursors_released Demo.always_printable H)
    as (_ & Hinfo & _ & Hcsv).
  split.
  - apply (Hinfo (lit "damaged")).
  - apply (Hcsv (lit "damaged") (lit "out/damaged.csv") (Some 1%Z)).
Defined.

(** ** The demonstration scenario *)

Example decode_ascii : Utf8.decode [x68; x69] = Some (lit "hi").
Proof. reflexivity. Qed.

Example decode_two_bytes : Utf8.decode [xc3; xa9] = Some [233%N].
Proof. reflexivity. Qed.

Example decode_rejects_overlong : Utf8.decode [xc0; x80] = None.
Proof. reflexivity. Qed.

Example decode_rejects_surrogate : Utf8.decode [xed; xa0; x80] = None.
Proof. reflexivity. Qed.

Example serialize_invalid_bytes :
  _serialize_value Demo.always_printable (VBytes [xff; xfe]) = lit "fffe".
Proof. reflexivity. Qed.

Example serialize_text_tuple :
  _serialize_value Demo.always_printable (VTuple [VStr (lit "a"); VInt 7])
  = lit "('a', 7)".
Proof. reflexivity. Qed.

Example serialize_singleton_tuple :
  _serialize_value Demo.always_printable (VTuple [VInt 7]) = lit "(7,)".
Proof. reflexivity. Qed.

Example demo_list_tables :
  fst (list_tables Demo.opened)
  = Ok [lit "damaged"; lit "logs"; lit "products"; lit "users"].
Proof. reflexivity. Qed.

Example demo_info_users :
  fst (get_table_info (lit "users") Demo.opened)
  = Ok (TableInfo (lit "users") true
          (Some (lit "key_format=i,value_format=S")) 3 None).
Proof. reflexivity. Qed.

Example demo_export_logs_limit_5 :
  assoc (lit "logs.csv")
    (files (snd (export_table_to_csv Demo.always_printable (lit "logs")
                   (lit "logs.csv") (Some 5%Z) Demo.opened)))
  = Some (CsvFile
      ([lit "key"; lit "value"]
       :: map (fun kv => csv_line (render_row Demo.always_printable kv))
              (firstn 5 (rows Demo.logs)))).
Proof. reflexivity. Qed.

(** A negative limit is truthy and already reached after the first row. *)
Example demo_export_negative_limit :
  assoc (lit "logs.json")
    (files (snd (export_table_to_json Demo.always_printable (lit "logs")
                   (lit "logs.json") (Some (-1)%Z) Demo.opened)))
  = Some (JsonFile
      (JsonDoc (lit "logs") 1
         (map (render_row Demo.always_printable)
              (firstn 1 (rows Demo.logs))))).
Proof. reflexivity. Qed.

(** The CSV export of the damaged table raises as well, but leaves the
    header and the two lines written before the error. *)
Example demo_csv_partial_file :
  fst (export_table_to_csv Demo.always_printable (lit "damaged")
         (lit "damaged.csv") None Demo.opened)
  = Raise (WiredTigerError (lit "WT_PANIC: WiredTiger library panic"))
  /\ assoc (lit "damaged.csv")
       (files (snd (export_table_to_csv Demo.always_printable (lit "damaged")
                      (lit "damaged.csv") None Demo.opened)))
     = Some (CsvFile [[lit "key"; lit "value"];
                      [lit "1"; lit "a"]; [lit "2"; lit "fffe"]]).
Proof. split; reflexivity. Qed.

(** An export of a table that does not exist raises from [open_cursor]; the
    session it had opened is closed all the same. *)
Example demo_export_missing_table :
  export_table_to_json Demo.always_printable (lit "missing") (lit "m.json")
    None Demo.opened
  = (Raise (WiredTigerError (lit "No such file or directory")),
     set_handles 1 [] [] Demo.opened).
Proof. reflexivity. Qed.

(** * Further properties of the browser *)

(** ** Inspection: every outcome of [get_table_info] *)

Lemma str_eqb_sym (a b : pystr) : str_eqb a b = str_eqb b a.
Proof.
  revert b. induction a as [|x a IH]; intros [|y b]; simpl; try reflexivity.
  now rewrite N.eqb_sym, IH.
Qed.

(** The metadata loop finds the first entry under the key, and only when
    there is none does it reach the end of the scan. *)
Lemma find_table_run (key : pystr) (rs : list (pystr * pystr))
    (flt : option pystr) (info : table_info) (w : world) :
  find_table key rs flt info w
  = match assoc key rs with
    | Some cfg =>
        (Ok (TableInfo (info_name info) true (Some cfg)
                       (info_record_count info) (info_error info)), w)
    | None =>
        match flt with
        | None => (Ok info, w)
        | Some m => (Raise (WiredTigerError m), w)
        end
    end.
Proof.
  induction rs as [|[k v] rs IH]; [now destruct flt|].
  cbn [find_table assoc]. rewrite (str_eqb_sym key k).
  destruct (str_eqb k key); [reflexivity | exact IH].
Qed.

(** X1.  A table of the catalog whose scan completes is reported with its
    exact number of records and with the configuration of the first catalog
    entry under its key; an error later in the catalog scan is never
    reached. *)
Theorem get_table_info_counts_all_records (w : world) (db : database)
    (name cfg : pystr) (rs : list (Value * Value)) :
  conn w = Some db ->
  assoc (lit "table:" ++ name) (rows (metadata db)) = Some cfg ->
  assoc name (tables db) = Some (Scan rs None) ->
  exists w',
    get_table_info name w
    = (Ok (TableInfo name true (Some cfg) (Z.of_nat (List.length rs)) None),
       w').
Proof.
  intros Hc Hk Ht. eexists.
  enter_get_table_info Hc.
  rewrite find_table_run, Hk.
  cbn [info_exists info_name info_config info_record_count info_error].
  unfold try_except, Engine.open_table_cursor, Engine.close_cursor, modify.
  rewrite Ht. unfold bind, Engine.new_cursor, ret. cbn [rows fault].
  rewrite count_rows_complete. cbn [Z.add].
  unfold Engine.close_session, modify. reflexivity.
Qed.

Lemma get_table_info_counts_all_records_witness :
  exists w',
    get_table_info (lit "logs") Demo.opened
    = (Ok (TableInfo (lit "logs") true
             (Some (lit "key_format=i,value_format=S")) 10 None), w').
Proof.
  apply (@get_table_info_counts_all_records Demo.opened Demo.db (lit "logs")
           (lit "key_format=i,value_format=S") (rows Demo.logs)).
  - reflexivity.
  - reflexivity.
  - reflexivity.
Defined.

(** X2.  A table that the catalog lists but the engine cannot open is not
    an error of [get_table_info] either: the failure of [open_cursor] is
    caught like a failing scan, and the result carries the configuration, a
    count of 0 and the message. *)
Theorem get_table_info_unopenable_table (w : world) (db : database)
    (name cfg : pystr) :
  conn w = Some db ->
  assoc (lit "table:" ++ name) (rows (metadata db)) = Some cfg ->
  assoc name (tables db) = None ->
  exists w',
    get_table_info name w
    = (Ok (TableInfo name true (Some cfg) 0
             (Some (lit "Could not count records: "
                    ++ lit "No such file or directory"))), w').
Proof.
  intros Hc Hk Ht. eexists.
  enter_get_table_info Hc.
  rewrite find_table_run, Hk.
  cbn [info_exists info_name info_config info_record_count info_error].
  unfold try_except, Engine.open_table_cursor, Engine.close_cursor, modify.
  rewrite Ht. unfold raise. cbn [exn_str].
  unfold Engine.close_session, modify. reflexivity.
Qed.

Lemma get_table_info_unopenable_table_witness :
  exists w',
    get_table_info (lit "ghost") Demo2.haunted
    = (Ok (TableInfo (lit "ghost") true (Some (lit "key_format=S")) 0
             (Some (lit "Could not count records: "
                    ++ lit "No such file or directory"))), w').
Proof.
  apply (@get_table_info_unopenable_table Demo2.haunted Demo2.ghost_db
           (lit "ghost") (lit "key_format=S")).
  - reflexivity.
  - reflexivity.
  - reflexivity.
Defined.

(** X3.  When the catalog scan ends in an engine error and the name has no
    entry before it, [get_table_info] raises that error: the local recovery
    covers the count, not the catalog. *)
Theorem get_table_info_catalog_error (w : world) (db : database)
    (name m : pystr) :
  conn w = Some db ->
  assoc (lit "table:" ++ name) (rows (metadata db)) = None ->
  fault (metadata db) = Some m ->
  exists w', get_table_info name w = (Raise (WiredTigerError m), w').
Proof.
  intros Hc Hk Hf. eexists.
  enter_get_table_info Hc.
  rewrite find_table_run, Hk, Hf.
  unfold Engine.close_session, modify. reflexivity.
Qed.

Lemma get_table_info_catalog_error_witness :
  exists w',
    get_table_info (lit "users") Demo2.torn
    = (Raise (WiredTigerError (lit "WT_ERROR: read checksum error")), w').
Proof.
  apply (@get_table_info_catalog_error Demo2.torn Demo2.torn_db (lit "users")
           (lit "WT_ERROR: read checksum error")).
  - reflexivity.
  - reflexivity.
  - reflexivity.
Defined.

(** X4.  On an open browser [get_table_info] raises in one case only: the
    catalog scan failed before an entry for the name was seen.  Whatever
    the table itself does, a name with a catalog entry gets a result, with
    [exists] true and the entry's configuration. *)
Theorem get_table_info_listed_never_raises (w : world) (db : database)
    (name cfg : pystr) :
  conn w = Some db ->
  assoc (lit "table:" ++ name) (rows (metadata db)) = Some cfg ->
  exists info w',
    get_table_info name w = (Ok info, w')
    /\ info_name info = name
    /\ info_exists info = true
    /\ info_config info = Some cfg
    /\ (info_error info = None
        <-> exists rs, assoc name (tables db) = Some (Scan rs None)).
Proof.
  intros Hc Hk.
  destruct (assoc name (tables db)) as [[rs [m|]]|] eqn:Ht.
  - do 2 eexists. split.
    + enter_get_table_info Hc. rewrite find_table_run, Hk.
      cbn [info_exists info_name info_config info_record_count info_error].
      unfold try_except, Engine.open_table_cursor, Engine.close_cursor,
        modify.
      rewrite Ht. unfold bind, Engine.new_cursor, ret. cbn [rows fault].
      rewrite count_rows_fault. cbn [exn_str].
      unfold Engine.close_session, modify. reflexivity.
    + cbn. repeat split; try discriminate.
      intros (rs' & H). discriminate H.
  - do 2 eexists. split.
    + enter_get_table_info Hc. rewrite find_table_run, Hk.
      cbn [info_exists info_name info_config info_record_count info_error].
      unfold try_except, Engine.open_table_cursor, Engine.close_cursor,
        modify.
      rewrite Ht. unfold bind, Engine.new_cursor, ret. cbn [rows fault].
      rewrite count_rows_complete.
      unfold Engine.close_session, modify. reflexivity.
    + cbn. repeat split. intros _. now exists rs.
  - do 2 eexists. split.
    + enter_get_table_info Hc. rewrite find_table_run, Hk.
      cbn [info_exists info_name info_config info_record_count info_error].
      unfold try_except, Engine.open_table_cursor, Engine.close_cursor,
        modify.
      rewrite Ht. unfold raise. cbn [exn_str].
      unfold Engine.close_session, modify. reflexivity.
    + cbn. repeat split; try discriminate.
      intros (rs' & H). discriminate H.
Qed.

Lemma get_table_info_listed_never_raises_witness :
  exists info w',
    get_table_info (lit "damaged") Demo.opened = (Ok info, w')
    /\ info_name info = lit "damaged"
    /\ info_exists info = true
    /\ info_config info = Some (lit "key_format=i,value_format=u")
    /\ (info_error info = None
        <-> exists rs,
              assoc (lit "damaged") (tables Demo.db) = Some (Scan rs None)).
Proof.
  apply (@get_table_info_listed_never_raises Demo.opened Demo.db
           (lit "damaged") (lit "key_format=i,value_format=u")).
  - reflexivity.
  - reflexivity.
Defined.

(** ** Listing: errors, duplicates and order *)

Lemma collect_tables_fault (rs : list (pystr * pystr)) (m : pystr)
    (acc : list pystr) (w : world) :
  collect_tables rs (Some m) acc w = (Raise (WiredTigerError m), w).
Proof.
  revert acc. induction rs as [|[key value] rs IH]; intros acc;
    [reflexivity|].
  cbn [collect_tables].
  destruct (startswith key (lit "table:")) eqn:E; [|apply IH].
  unfold bind, index. rewrite (split_table_key _ E). unfold ret at 1.
  apply IH.
Qed.

(** X5.  When the catalog scan ends in an engine error, [list_tables]
    raises that error however many table entries were read before it: a
    partial list is never returned. *)
Theorem list_tables_no_partial_list (w : world) (db : database) (m : pystr) :
  conn w = Some db ->
  fault (metadata db) = Some m ->
  exists w', list_tables w = (Raise (WiredTigerError m), w').
Proof.
  intros Hc Hf. eexists.
  unfold list_tables, require_conn, bind at 1. rewrite Hc.
  unfold Engine.open_session, bind at 1.
  unfold try_finally, bind at 1.
  unfold Engine.open_metadata_cursor, Engine.new_cursor, bind, ret.
  cbn [fst snd]. rewrite Hf, collect_tables_fault.
  unfold Engine.close_session, modify. reflexivity.
Qed.

Lemma list_tables_no_partial_list_witness :
  exists w',
    list_tables Demo2.torn
    = (Raise (WiredTigerError (lit "WT_ERROR: read checksum error")), w').
Proof.
  apply (@list_tables_no_partial_list Demo2.torn Demo2.torn_db).
  - reflexivity.
  - reflexivity.
Defined.

Lemma str_le_trans (a b c : pystr) : str_le a b -> str_le b c -> str_le a c.
Proof.
  unfold str_le. intros Hab Hbc.
  destruct (str_ltb c a) eqn:Hca; [|reflexivity]. exfalso.
  destruct (str_ltb a b) eqn:E.
  - rewrite (str_ltb_trans _ _ _ Hca E) in Hbc. discriminate.
  - rewrite (str_ltb_total _ _ E Hab) in Hca. congruence.
Qed.

Lemma insert_sorted_ascending (x : pystr) (l : list pystr) :
  StronglySorted str_le l -> StronglySorted str_le (insert_sorted x l).
Proof.
  induction l as [|y r IH]; intros Hs; simpl.
  - repeat constructor.
  - apply StronglySorted_inv in Hs. destruct Hs as [Hr Hy].
    destruct (str_ltb y x) eqn:E.
    + constructor; [now apply IH|].
      eapply Permutation_Forall; [symmetry; apply insert_sorted_perm|].
      constructor; [|exact Hy].
      unfold str_le. destruct (str_ltb x y) eqn:E'; [|reflexivity].
      rewrite <- (str_ltb_irrefl y). symmetry.
      eapply str_ltb_trans; eauto.
    + constructor; [now constructor|].
      constructor; [exact E|].
      eapply Forall_impl; [|exact Hy].
      intros z Hz. eapply str_le_trans; eauto.
Qed.

Lemma sorted_ascending (l : list pystr) : StronglySorted str_le (sorted l).
Proof.
  induction l as [|x l IH]; simpl; [constructor|].
  now apply insert_sorted_ascending.
Qed.

(** Two ascending lists with the same elements are the same list. *)
Lemma ascending_unique (l1 l2 : list pystr) :
  StronglySorted str_le l1 -> StronglySorted str_le l2 ->
  Permutation l1 l2 -> l1 = l2.
Proof.
  revert l2. induction l1 as [|a l1 IH]; intros l2 H1 H2 Hp.
  - apply Permutation_nil in Hp. now subst.
  - destruct l2 as [|b l2];
      [apply Permutation_sym, Permutation_nil in Hp; discriminate|].
    apply StronglySorted_inv in H1, H2.
    destruct H1 as [H1 Ha], H2 as [H2 Hb].
    assert (Hab : a = b).
    { assert (Hin1 : In a (b :: l2))
        by (eapply Permutation_in; [exact Hp|now left]).
      assert (Hin2 : In b (a :: l1))
        by (eapply Permutation_in; [symmetry; exact Hp|now left]).
      destruct Hin1 as [->|Hin1]; [reflexivity|].
      destruct Hin2 as [->|Hin2]; [reflexivity|].
      rewrite Forall_forall in Ha, Hb.
      apply str_ltb_total; [apply (Hb _ Hin1) | apply (Ha _ Hin2)]. }
    subst b. f_equal. apply IH; auto.
    now apply Permutation_cons_inv in Hp.
Qed.

Lemma filter_perm {A} (f : A -> bool) (l1 l2 : list A) :
  Permutation l1 l2 -> Permutation (filter f l1) (filter f l2).
Proof.
  induction 1 as [|x l1 l2 _ IH|x y l|l1 l2 l3 _ IH1 _ IH2]; simpl.
  - constructor.
  - destruct (f x); [now constructor|exact IH].
  - destruct (f x), (f y); try reflexivity. apply perm_swap.
  - now transitivity (filter f l2).
Qed.

(** The run of [list_tables] on a catalog whose scan completes. *)
Lemma list_tables_run (w : world) (db : database) :
  conn w = Some db ->
  fault (metadata db) = None ->
  exists w',
    list_tables w
    = (Ok (sorted (map (skipn 6)
             (filter is_table_key (map fst (rows (metadata db)))))), w').
Proof.
  intros Hc Hf. eexists.
  unfold list_tables, require_conn, bind at 1. rewrite Hc.
  unfold Engine.open_session, bind at 1.
  unfold try_finally, bind at 1.
  unfold Engine.open_metadata_cursor, Engine.new_cursor, bind, ret.
  cbn [fst snd]. rewrite Hf, collect_tables_spec. cbn [app].
  unfold Engine.close_cursor, Engine.close_session, modify. reflexivity.
Qed.

(** X6.  Without any assumption on the catalog's keys, the list returned is
    ascending and holds one name per table entry, repeated entries
    included: nothing is dropped or merged. *)
Theorem list_tables_ascending_keeps_duplicates (w : world) (db : database) :
  conn w = Some db ->
  fault (metadata db) = None ->
  exists names w',
    list_tables w = (Ok names, w')
    /\ StronglySorted str_le names
    /\ Permutation names
         (map (skipn 6) (filter is_table_key (map fst (rows (metadata db)))))
    /\ List.length names
       = List.length (filter is_table_key (map fst (rows (metadata db)))).
Proof.
  intros Hc Hf. destruct (list_tables_run w Hc Hf) as (w' & Hrun).
  eexists. exists w'. split; [exact Hrun|]. split; [|split].
  - apply sorted_ascending.
  - apply sorted_perm.
  - rewrite (Permutation_length (sorted_perm _)). apply length_map.
Qed.

Lemma list_tables_ascending_keeps_duplicates_witness :
  exists names w',
    list_tables Demo.opened = (Ok names, w')
    /\ StronglySorted str_le names
    /\ Permutation names
         (map (skipn 6)
              (filter is_table_key (map fst (rows (metadata Demo.db)))))
    /\ List.length names
       = List.length
           (filter is_table_key (map fst (rows (metadata Demo.db)))).
Proof.
  apply (@list_tables_ascending_keeps_duplicates Demo.opened Demo.db).
  - reflexivity.
  - reflexivity.
Defined.

(** X7.  The list depends on the catalog's entries, not on the order in
    which the cursor yields them: two readable catalogs with the same
    entries give the same list. *)
Theorem list_tables_order_independent (w1 w2 : world) (db1 db2 : database) :
  conn w1 = Some db1 -> conn w2 = Some db2 ->
  fault (metadata db1) = None -> fault (metadata db2) = None ->
  Permutation (rows (metadata db1)) (rows (metadata db2)) ->
  fst (list_tables w1) = fst (list_tables w2).
Proof.
  intros Hc1 Hc2 Hf1 Hf2 Hp.
  destruct (list_tables_run w1 Hc1 Hf1) as (w1' & ->).
  destruct (list_tables_run w2 Hc2 Hf2) as (w2' & ->).
  cbn [fst]. f_equal.
  apply ascending_unique; try apply sorted_ascending.
  rewrite !sorted_perm.
  apply Permutation_map, filter_perm, Permutation_map. exact Hp.
Qed.

Lemma list_tables_order_independent_witness :
  fst (list_tables Demo.opened) = fst (list_tables Demo2.shuffled).
Proof.
  apply (@list_tables_order_independent Demo.opened Demo2.shuffled
           Demo.db Demo2.shuffled_db).
  - reflexivity.
  - reflexivity.
  - reflexivity.
  - reflexivity.
  - cbn [Demo.db Demo2.shuffled_db metadata rows].
    apply Permutation_rev.
Defined.

(** X8.  [list_tables] and [get_table_info] agree on what exists: on a
    readable catalog a name is in the list exactly when its inspection
    answers [exists] true, whatever state the table itself is in. *)
Theorem list_tables_agrees_with_get_table_info (w : world) (db : database)
    (name : pystr) :
  conn w = Some db ->
  fault (metadata db) = None ->
  exists names info w1 w2,
    list_tables w = (Ok names, w1)
    /\ get_table_info name w = (Ok info, w2)
    /\ (In name names <-> info_exists info = true).
Proof.
  intros Hc Hf. destruct (list_tables_run w Hc Hf) as (w1 & Hrun).
  assert (Hin : forall n,
             In n (sorted (map (skipn 6) (filter is_table_key
                       (map fst (rows (metadata db))))))
             <-> In (lit "table:" ++ n) (map fst (rows (metadata db)))).
  { intros n. rewrite <- stripped_names. split; intros H.
    - eapply Permutation_in; [apply sorted_perm|exact H].
    - eapply Permutation_in; [symmetry; apply sorted_perm|exact H]. }
  assert (Hassoc : forall (l : list (pystr * pystr)) k,
             In k (map fst l) <-> assoc k l <> None).
  { induction l as [|[k' v] l IH]; intros k; cbn [map fst In assoc].
    - split; [tauto|congruence].
    - destruct (str_eqb k k') eqn:E.
      + apply str_eqb_eq in E. subst k'. split; [discriminate|now left].
      + rewrite <- IH. split; [|tauto].
        intros [->|H]; [now rewrite str_eqb_refl in E|exact H]. }
  destruct (assoc (lit "table:" ++ name) (rows (metadata db)))
    as [cfg|] eqn:Hk.
  - destruct (assoc name (tables db)) as [[rs [m|]]|] eqn:Ht;
      (do 2 eexists; exists w1; eexists; split; [exact Hrun|]; split;
       [ enter_get_table_info Hc; rewrite find_table_run, Hk;
         cbn [info_exists info_name info_config info_record_count
              info_error];
         unfold try_except, Engine.open_table_cursor, Engine.close_cursor,
           modify;
         rewrite Ht; unfold bind, Engine.new_cursor, ret, raise;
         cbn [rows fault];
         rewrite ?count_rows_fault, ?count_rows_complete;
         unfold Engine.close_session, modify; reflexivity
       | cbn [info_exists]; rewrite Hin, Hassoc, Hk;
         split; [reflexivity|discriminate] ]).
  - do 2 eexists. exists w1. eexists. split; [exact Hrun|]. split.
    + enter_get_table_info Hc. rewrite find_table_run, Hk, Hf.
      cbn [info_exists].
      unfold Engine.close_cursor, Engine.close_session, modify. reflexivity.
    + cbn [info_exists]. rewrite Hin, Hassoc, Hk.
      split; [congruence|discriminate].
Qed.

Lemma list_tables_agrees_with_get_table_info_witness :
  exists names info w1 w2,
    list_tables Demo.opened = (Ok names, w1)
    /\ get_table_info (lit "damaged") Demo.opened = (Ok info, w2)
    /\ (In (lit "damaged") names <-> info_exists info = true).
Proof.
  apply (@list_tables_agrees_with_get_table_info Demo.opened Demo.db
           (lit "damaged")).
  - reflexivity.
  - reflexivity.
Defined.

(** ** What the operations leave alone *)

Section Preserves.

Variable R : world -> world -> Prop.
Hypothesis R_refl : forall w, R w w.
Hypothesis R_trans : forall w1 w2 w3, R w1 w2 -> R w2 w3 -> R w1 w3.
Hypothesis R_handles : forall n ss cs w, R w (set_handles n ss cs w).

Lemma preserves_ret {A} (a : A) : preserves R (ret a).
Proof. intros w. apply R_refl. Qed.

Lemma preserves_raise {A} (e : exn) : preserves R (@raise A e).
Proof. intros w. apply R_refl. Qed.

Lemma preserves_bind {A B} (m : M A) (k : A -> M B) :
  preserves R m -> (forall a, preserves R (k a)) -> preserves R (bind m k).
Proof.
  intros Hm Hk w. unfold bind. specialize (Hm w).
  destruct (m w) as [[a|e] w1]; cbn [snd] in *; [|exact Hm].
  eapply R_trans; [exact Hm | apply Hk].
Qed.

Lemma preserves_try_finally {A} (body : M A) (fin : M unit) :
  preserves R body -> preserves R fin -> preserves R (try_finally body fin).
Proof.
  intros Hb Hf w. unfold try_finally. specialize (Hb w).
  destruct (body w) as [r w1]. specialize (Hf w1).
  destruct (fin w1) as [[u|e] w2]; cbn [snd] in *;
    eapply R_trans; eauto.
Qed.

Lemma preserves_try_except {A} (body : M A) (handler : exn -> M A) :
  preserves R body -> (forall e, preserves R (handler e)) ->
  preserves R (try_except body handler).
Proof.
  intros Hb Hh w. unfold try_except. specialize (Hb w).
  destruct (body w) as [[a|e] w1]; cbn [snd] in *; [exact Hb|].
  eapply R_trans; [exact Hb | apply Hh].
Qed.

Lemma preserves_end_of_scan {A} (flt : option pystr) (a : A) :
  preserves R (match flt with
               | None => ret a
               | Some m => raise (WiredTigerError m)
               end).
Proof. destruct flt; [apply preserves_raise | apply preserves_ret]. Qed.

Lemma preserves_collect_tables (rs : list (pystr * pystr))
    (flt : option pystr) (acc : list pystr) :
  preserves R (collect_tables rs flt acc).
Proof.
  revert acc. induction rs as [|[key value] rs IH]; intros acc;
    cbn [collect_tables].
  - apply preserves_end_of_scan.
  - destruct (startswith key (lit "table:")); [|apply IH].
    apply preserves_bind; [|intros; apply IH].
    unfold index. destruct (nth_error _ _);
      [apply preserves_ret | apply preserves_raise].
Qed.

Lemma preserves_find_table (key : pystr) (rs : list (pystr * pystr))
    (flt : option pystr) (info : table_info) :
  preserves R (find_table key rs flt info).
Proof.
  induction rs as [|[k v] rs IH]; cbn [find_table].
  - apply preserves_end_of_scan.
  - destruct (str_eqb k key); [apply preserves_ret | apply IH].
Qed.

Lemma preserves_count_rows {A} (rs : list A) (flt : option pystr)
    (count : Z) :
  preserves R (count_rows rs flt count).
Proof.
  revert count. induction rs as [|r rs IH]; intros count; cbn [count_rows].
  - apply preserves_end_of_scan.
  - apply IH.
Qed.

Lemma preserves_json_loop (isprintable : N -> bool) (limit : option Z)
    (rs : list (Value * Value)) (flt : option pystr)
    (recs : list (pystr * pystr)) (count : Z) :
  preserves R (json_loop isprintable limit rs flt recs count).
Proof.
  revert recs count. induction rs as [|[key value] rs IH];
    intros recs count; cbn [json_loop].
  - apply preserves_end_of_scan.
  - destruct (limit_reached limit (count + 1));
      [apply preserves_ret | apply IH].
Qed.

Lemma preserves_open_session : preserves R Engine.open_session.
Proof. intros w. apply R_handles. Qed.

Lemma preserves_close_session (s : nat) :
  preserves R (Engine.close_session s).
Proof. intros w. apply R_handles. Qed.

Lemma preserves_close_cursor (c : nat) : preserves R (Engine.close_cursor c).
Proof. intros w. apply R_handles. Qed.

Lemma preserves_open_metadata_cursor (db : database) (s : nat) :
  preserves R (Engine.open_metadata_cursor db s).
Proof. intros w. apply R_handles. Qed.

Lemma preserves_open_table_cursor (db : database) (s : nat) (name : pystr) :
  preserves R (Engine.open_table_cursor db s name).
Proof.
  intros w. unfold Engine.open_table_cursor.
  destruct (assoc name (tables db)); [apply R_handles | apply R_refl].
Qed.

Lemma preserves_require_conn : preserves R require_conn.
Proof. intros w. unfold require_conn. destruct (conn w); apply R_refl. Qed.

Lemma preserves_list_tables : preserves R list_tables.
Proof.
  unfold list_tables.
  apply preserves_bind; [apply preserves_require_conn|]. intros db.
  apply preserves_bind; [apply preserves_open_session|]. intros s.
  apply preserves_bind; [|intros; apply preserves_ret].
  apply preserves_try_finally; [|apply preserves_close_session].
  apply preserves_bind; [apply preserves_open_metadata_cursor|].
  intros [c sc].
  apply preserves_bind; [apply preserves_collect_tables|]. intros ts.
  apply preserves_bind; [apply preserves_close_cursor|]. intros _.
  apply preserves_ret.
Qed.

Lemma preserves_get_table_info (name : pystr) :
  preserves R (get_table_info name).
Proof.
  unfold get_table_info.
  apply preserves_bind; [apply preserves_require_conn|]. intros db.
  apply preserves_bind; [apply preserves_open_session|]. intros s.
  apply preserves_try_finally; [|apply preserves_close_session].
  apply preserves_bind; [apply preserves_open_metadata_cursor|].
  intros [c sc].
  apply preserves_bind; [apply preserves_find_table|]. intros info.
  apply preserves_bind; [apply preserves_close_cursor|]. intros _.
  destruct (info_exists info); [|apply preserves_ret].
  apply preserves_try_except; [|intros; apply preserves_ret].
  apply preserves_bind; [apply preserves_open_table_cursor|].
  intros [c' tsc].
  apply preserves_bind; [apply preserves_count_rows|]. intros count.
  apply preserves_bind; [apply preserves_close_cursor|]. intros _.
  apply preserves_ret.
Qed.

(** The exports, for a relation that also allows what they do to the
    output path and the console. *)
Variable path : pystr.
Hypothesis R_parents : forall ps w, R w (set_parents ps w).
Hypothesis R_stdout : forall out w, R w (set_stdout out w).
Hypothesis R_put : forall f w, R w (set_files (Fs.put path f (files w)) w).

Lemma preserves_writerow (row : list pystr) :
  preserves R (Fs.writerow path row).
Proof.
  intros w. unfold Fs.writerow, modify. cbn [snd].
  destruct (assoc path (files w)) as [[d|ls]|];
    [apply R_refl | apply R_put | apply R_refl].
Qed.

Lemma preserves_csv_loop (isprintable : N -> bool) (limit : option Z)
    (rs : list (Value * Value)) (flt : option pystr) (count : Z) :
  preserves R (csv_loop isprintable limit path rs flt count).
Proof.
  revert count. induction rs as [|[key value] rs IH]; intros count;
    cbn [csv_loop].
  - apply preserves_end_of_scan.
  - apply preserves_bind; [apply preserves_writerow|]. intros _.
    destruct (limit_reached limit (count + 1));
      [apply preserves_ret | apply IH].
Qed.

Lemma preserves_export_table_to_json (isprintable : N -> bool)
    (name : pystr) (limit : option Z) :
  preserves R (export_table_to_json isprintable name path limit).
Proof.
  unfold export_table_to_json.
  apply preserves_bind; [apply preserves_require_conn|]. intros db.
  apply preserves_bind; [apply preserves_open_session|]. intros s.
  apply preserves_try_finally; [|apply preserves_close_session].
  apply preserves_bind; [apply preserves_open_table_cursor|].
  intros [c sc].
  apply preserves_bind; [apply preserves_json_loop|]. intros [recs count].
  apply preserves_bind; [apply preserves_close_cursor|]. intros _.
  apply preserves_bind; [intros w; apply R_parents|]. intros _.
  apply preserves_bind; [intros w; apply R_put|]. intros _.
  intros w. apply R_stdout.
Qed.

Lemma preserves_export_table_to_csv (isprintable : N -> bool)
    (name : pystr) (limit : option Z) :
  preserves R (export_table_to_csv isprintable name path limit).
Proof.
  unfold export_table_to_csv.
  apply preserves_bind; [apply preserves_require_conn|]. intros db.
  apply preserves_bind; [apply preserves_open_session|]. intros s.
  apply preserves_try_finally; [|apply preserves_close_session].
  apply preserves_bind; [apply preserves_open_table_cursor|].
  intros [c sc].
  apply preserves_bind; [intros w; apply R_parents|]. intros _.
  apply preserves_bind; [intros w; apply R_put|]. intros _.
  apply preserves_bind; [apply preserves_writerow|]. intros _.
  apply preserves_bind; [apply preserves_csv_loop|]. intros count.
  apply preserves_bind; [apply preserves_close_cursor|]. intros _.
  intros w. apply R_stdout.
Qed.

End Preserves.

Lemma same_outside_engine_refl (w : world) : same_outside_engine w w.
Proof. repeat split. Qed.

Lemma same_outside_engine_trans (w1 w2 w3 : world) :
  same_outside_engine w1 w2 -> same_outside_engine w2 w3 ->
  same_outside_engine w1 w3.
Proof.
  unfold same_outside_engine. intros H1 H2.
  repeat split; etransitivity; try apply H2; apply H1.
Qed.

(** X9.  [list_tables] and [get_table_info] only read: whatever they
    return or raise, the connection, the files, the directories and the
    console are as before; nothing but the engine's handles has moved. *)
Theorem listing_and_inspection_read_only (w : world) (name : pystr) :
  same_outside_engine w (snd (list_tables w))
  /\ same_outside_engine w (snd (get_table_info name w)).
Proof.
  split.
  - apply preserves_list_tables.
    + apply same_outside_engine_refl.
    + apply same_outside_engine_trans.
    + intros. repeat split.
  - apply preserves_get_table_info.
    + apply same_outside_engine_refl.
    + apply same_outside_engine_trans.
    + intros. repeat split.
Qed.

Lemma assoc_put_other (p path : pystr) (f : file)
    (fs : list (pystr * file)) :
  p <> path -> assoc p (Fs.put path f fs) = assoc p fs.
Proof.
  intros Hp. unfold Fs.put. cbn [assoc].
  destruct (str_eqb p path) eqn:E; [apply str_eqb_eq in E; contradiction|].
  induction fs as [|[q g] fs IH]; [reflexivity|].
  cbn [filter fst assoc]. destruct (str_eqb q path) eqn:Eq; cbn [negb].
  - apply str_eqb_eq in Eq. subst q. now rewrite E.
  - cbn [assoc]. now rewrite IH.
Qed.

(** X10.  An export writes under its output path and nowhere else: every
    other file is afterwards what it was before, for both formats, every
    limit and every outcome. *)
Theorem exports_touch_only_their_path (isprintable : N -> bool) (w : world)
    (name path : pystr) (limit : option Z) (p : pystr) :
  p <> path ->
  assoc p (files (snd (export_table_to_json isprintable name path limit w)))
  = assoc p (files w)
  /\ assoc p (files (snd (export_table_to_csv isprintable name path limit w)))
     = assoc p (files w).
Proof.
  intros Hp.
  assert (Hrefl : forall w0, same_other_files path w0 w0)
    by (intros w0 q _; reflexivity).
  assert (Htrans : forall w1 w2 w3,
             same_other_files path w1 w2 -> same_other_files path w2 w3 ->
             same_other_files path w1 w3).
  { intros w1 w2 w3 H1 H2 q Hq. rewrite (H2 q Hq). now apply H1. }
  assert (Hput : forall f w0,
             same_other_files path w0
               (set_files (Fs.put path f (files w0)) w0)).
  { intros f w0 q Hq. cbn [files set_files]. now apply assoc_put_other. }
  split.
  - apply (@preserves_export_table_to_json (same_other_files path)
             Hrefl Htrans); auto; intros; intros q _; reflexivity.
  - apply (@preserves_export_table_to_csv (same_other_files path)
             Hrefl Htrans); auto; intros; intros q _; reflexivity.
Qed.

Lemma exports_touch_only_their_path_witness :
  assoc (lit "notes.txt")
    (files (snd (export_table_to_json Demo.always_printable (lit "damaged")
                   (lit "users.json") None Demo2.with_notes)))
  = assoc (lit "notes.txt") (files Demo2.with_notes)
  /\ assoc (lit "notes.txt")
       (files (snd (export_table_to_csv Demo.always_printable (lit "damaged")
                      (lit "users.json") None Demo2.with_notes)))
     = assoc (lit "notes.txt") (files Demo2.with_notes).
Proof.
  apply (@exports_touch_only_their_path Demo.always_printable
           Demo2.with_notes).
  intros H. discriminate H.
Defined.

(** X11.  No operation closes or replaces the connection: after a listing,
    an inspection or an export, failed or not, the browser holds the
    connection it held and [Connection.close] was not called. *)
Theorem operations_keep_the_connection (isprintable : N -> bool) (w : world)
    (name path : pystr) (limit : option Z) :
  let kept (w' : world) := conn w' = conn w /\ released w' = released w in
  kept (snd (list_tables w))
  /\ kept (snd (get_table_info name w))
  /\ kept (snd (export_table_to_json isprintable name path limit w))
  /\ kept (snd (export_table_to_csv isprintable name path limit w)).
Proof.
  set (R := fun w0 w' : world =>
              conn w' = conn w0 /\ released w' = released w0).
  assert (Hrefl : forall w0, R w0 w0) by (intros; split; reflexivity).
  assert (Htrans : forall w1 w2 w3, R w1 w2 -> R w2 w3 -> R w1 w3).
  { intros w1 w2 w3 [H1 H2] [H3 H4]. split; congruence. }
  cbv zeta. repeat split.
  all: first
    [ apply (@preserves_list_tables R Hrefl Htrans)
    | apply (@preserves_get_table_info R Hrefl Htrans)
    | apply (@preserves_export_table_to_json R Hrefl Htrans)
    | apply (@preserves_export_table_to_csv R Hrefl Htrans) ];
    intros; split; reflexivity.
Qed.

(** ** Exports: missing tables, failing scans, every limit *)

(** X12.  Exporting a table the engine does not have raises the engine's
    error from [open_cursor], in both formats, before anything is written:
    no file, no directory, no line on the console. *)
Theorem exports_of_missing_table_write_nothing (isprintable : N -> bool)
    (w : world) (db : database) (name path : pystr) (limit : option Z) :
  conn w = Some db ->
  assoc name (tables db) = None ->
  (exists w',
     export_table_to_json isprintable name path limit w
     = (Raise (WiredTigerError (lit "No such file or directory")), w')
     /\ files w' = files w /\ parents w' = parents w
     /\ stdout w' = stdout w)
  /\ (exists w',
        export_table_to_csv isprintable name path limit w
        = (Raise (WiredTigerError (lit "No such file or directory")), w')
        /\ files w' = files w /\ parents w' = parents w
        /\ stdout w' = stdout w).
Proof.
  intros Hc Ht. split; eexists; split.
  - unfold export_table_to_json, require_conn, bind at 1. rewrite Hc.
    unfold Engine.open_session, bind at 1. unfold try_finally, bind at 1.
    unfold Engine.open_table_cursor. rewrite Ht. unfold raise.
    unfold Engine.close_session, modify. reflexivity.
  - repeat split.
  - unfold export_table_to_csv, require_conn, bind at 1. rewrite Hc.
    unfold Engine.open_session, bind at 1. unfold try_finally, bind at 1.
    unfold Engine.open_table_cursor. rewrite Ht. unfold raise.
    unfold Engine.close_session, modify. reflexivity.
  - repeat split.
Qed.

Lemma exports_of_missing_table_write_nothing_witness :
  exists w',
    export_table_to_csv Demo.always_printable (lit "ghost") (lit "ghost.csv")
      (Some 3%Z) Demo2.haunted
    = (Raise (WiredTigerError (lit "No such file or directory")), w')
    /\ files w' = files Demo2.haunted /\ parents w' = parents Demo2.haunted
    /\ stdout w' = stdout Demo2.haunted.
Proof.
  apply (@exports_of_missing_table_write_nothing Demo.always_printable
           Demo2.haunted Demo2.ghost_db (lit "ghost") (lit "ghost.csv")
           (Some 3%Z)).
  - reflexivity.
  - reflexivity.
Defined.

(** On a scan that ends in an engine error the loop of the CSV export
    either is stopped by the limit, or writes a line for every row and then
    raises the error. *)
Lemma csv_loop_fault (isprintable : N -> bool) (limit : option Z)
    (path : pystr) (rs : list (Value * Value)) (m : pystr) (count : Z)
    (w : world) (ls : list (list pystr)) :
  assoc path (files w) = Some (CsvFile ls) ->
  exists r fs,
    csv_loop isprintable limit path rs (Some m) count w = (r, set_files fs w)
    /\ match r with
       | Raise e =>
           e = WiredTigerError m
           /\ assoc path fs
              = Some (CsvFile
                  (ls ++ map (fun kv => csv_line (render_row isprintable kv))
                             rs))
       | Ok _ =>
           exists i, 1 <= i <= List.length rs
                     /\ limit_reached limit (count + Z.of_nat i) = true
       end.
Proof.
  revert count w ls. induction rs as [|[key value] rs IH];
    intros count w ls Hf.
  - exists (Raise (WiredTigerError m)), (files w). split.
    + simpl. unfold raise. now destruct w.
    + split; [reflexivity|]. simpl. now rewrite app_nil_r.
  - cbn [csv_loop]. unfold bind, Fs.writerow, modify. rewrite Hf.
    destruct (limit_reached limit (count + 1)) eqn:E.
    + do 2 eexists. split; [reflexivity|].
      exists 1. split; [simpl; lia|exact E].
    + edestruct (IH (count + 1)%Z
                   (set_files (Fs.put path
                      (CsvFile (ls ++ [[_serialize_value isprintable key;
                                        _serialize_value isprintable value]]))
                      (files w)) w)) as (r & fs & Hrun & Hr).
      { cbn [files set_files]. apply assoc_put. }
      exists r, fs. split; [exact Hrun|].
      destruct r as [a|e].
      * destruct Hr as (i & Hi & Hr). exists (S i). split; [simpl; lia|].
        rewrite <- Hr. f_equal. lia.
      * destruct Hr as [He Hfs]. split; [exact He|].
        rewrite Hfs. cbn [map]. now rewrite <- app_assoc.
Qed.

Lemma export_table_to_csv_on_fault (isprintable : N -> bool) (w : world)
    (db : database) (name path : pystr) (limit : option Z)
    (rs : list (Value * Value)) (m : pystr) :
  conn w = Some db ->
  assoc name (tables db) = Some (Scan rs (Some m)) ->
  exists r w',
    export_table_to_csv isprintable name path limit w = (r, w')
    /\ match r with
       | Raise e =>
           e = WiredTigerError m
           /\ assoc path (files w')
              = Some (CsvFile
                  ([lit "key"; lit "value"]
                   :: map (fun kv => csv_line (render_row isprintable kv))
                          rs))
           /\ stdout w' = stdout w
       | Ok _ =>
           exists i, 1 <= i <= List.length rs
                     /\ limit_reached limit (Z.of_nat i) = true
       end.
Proof.
  intros Hc Ht.
  enter_export Hc Ht.
  unfold bind at 1. unfold Fs.mkdir_parent at 1. unfold modify at 1.
  unfold bind at 1. unfold Fs.write at 1. unfold modify at 1.
  unfold bind at 1. unfold Fs.writerow at 1. unfold modify at 1.
  cbn [files set_files set_handles set_parents]. rewrite assoc_put.
  unfold bind at 1.
  match goal with
  | |- context [csv_loop _ _ _ _ _ _ ?w0] =>
    destruct (@csv_loop_fault isprintable limit path rs m 0 w0
                [[lit "key"; lit "value"]]) as (r & fs & Hrun & Hr);
      [cbn [files set_files]; apply assoc_put|]
  end.
  rewrite Hrun. destruct r as [n|e]; do 2 eexists; split.
  - unfold bind, Engine.close_cursor, print, Engine.close_session, modify.
    reflexivity.
  - exact Hr.
  - unfold Engine.close_session, modify. reflexivity.
  - destruct Hr as [He Hfs]. repeat split; [exact He|].
    cbn [files set_files set_handles]. exact Hfs.
Qed.

(** X13.  Unlike the JSON export, the CSV export is not atomic.  On a
    table whose scan ends in an engine error, a call that raises that error
    has left a file behind: the header and one line for every row read
    before the error, in place of whatever the path held.  A call that
    returns normally on such a table was stopped by the limit. *)
Theorem export_table_to_csv_leaves_partial_file (isprintable : N -> bool)
    (w : world) (db : database) (name path : pystr) (limit : option Z)
    (rs : list (Value * Value)) (m : pystr) :
  conn w = Some db ->
  assoc name (tables db) = Some (Scan rs (Some m)) ->
  (fst (export_table_to_csv isprintable name path limit w)
   = Raise (WiredTigerError m) ->
   assoc path
     (files (snd (export_table_to_csv isprintable name path limit w)))
   = Some (CsvFile
       ([lit "key"; lit "value"]
        :: map (fun kv => csv_line (render_row isprintable kv)) rs)))
  /\ (fst (export_table_to_csv isprintable name path limit w) = Ok tt ->
      exists i, 1 <= i <= List.length rs
                /\ limit_reached limit (Z.of_nat i) = true).
Proof.
  intros Hc Ht.
  destruct (export_table_to_csv_on_fault isprintable w name path limit Hc Ht)
    as (r & w' & E & H).
  rewrite E. cbn [fst snd]. split; intros Hr; subst r.
  - now destruct H as (_ & Hf & _).
  - exact H.
Qed.

Lemma export_table_to_csv_leaves_partial_file_witness :
  fst (export_table_to_csv Demo.always_printable (lit "damaged")
         (lit "notes.txt") None Demo2.with_notes)
  = Raise (WiredTigerError (lit "WT_PANIC: WiredTiger library panic"))
  /\ assoc (lit "notes.txt")
       (files (snd (export_table_to_csv Demo.always_printable (lit "damaged")
                      (lit "notes.txt") None Demo2.with_notes)))
     = Some (CsvFile [[lit "key"; lit "value"];
                      [lit "1"; lit "a"]; [lit "2"; lit "fffe"]]).
Proof.
  split; [reflexivity|].
  apply (proj1 (@export_table_to_csv_leaves_partial_file
                  Demo.always_printable Demo2.with_notes Demo.db
                  (lit "damaged") (lit "notes.txt") None (rows Demo.damaged)
                  (lit "WT_PANIC: WiredTiger library panic")
                  eq_refl eq_refl)).
  reflexivity.
Defined.

Lemma emitted_bounds (limit : option Z) (n : nat) :
  emitted limit n <= n /\ (1 <= n -> 1 <= emitted limit n).
Proof.
  unfold emitted. destruct limit as [k|]; [|lia].
  destruct (k =? 0)%Z; lia.
Qed.

(** X14.  For a table whose scan completes, and for every limit, an export
    that returns has written a prefix of the table in cursor order, of the
    same length [n] in both formats: all [N] rows with no limit or a limit
    of zero, one row with a negative limit, [min(limit, N)] rows otherwise.
    A table that has rows is never exported empty. *)
Theorem exports_write_a_prefix (isprintable : N -> bool) (w : world)
    (db : database) (name path : pystr) (limit : option Z)
    (rs : list (Value * Value)) :
  conn w = Some db ->
  assoc name (tables db) = Some (Scan rs None) ->
  let n := match limit with
           | None => List.length rs
           | Some k =>
             if (k =? 0)%Z then List.length rs
             else if (k <? 0)%Z then Nat.min 1 (List.length rs)
             else Nat.min (Z.to_nat k) (List.length rs)
           end in
  (rs <> [] -> 1 <= n)
  /\ (fst (export_table_to_json isprintable name path limit w) = Ok tt ->
      assoc path
        (files (snd (export_table_to_json isprintable name path limit w)))
      = Some (JsonFile (JsonDoc name (Z.of_nat n)
                (map (render_row isprintable) (firstn n rs)))))
  /\ (fst (export_table_to_csv isprintable name path limit w) = Ok tt ->
      assoc path
        (files (snd (export_table_to_csv isprintable name path limit w)))
      = Some (CsvFile
          ([lit "key"; lit "value"]
           :: map (fun kv => csv_line (render_row isprintable kv))
                  (firstn n rs)))).
Proof.
  intros Hc Ht n.
  assert (Hn : emitted limit (List.length rs) = n).
  { subst n. unfold emitted. destruct limit as [k|]; [|reflexivity].
    destruct (k =? 0)%Z eqn:E0; [reflexivity|].
    destruct (k <? 0)%Z eqn:E; lia. }
  rewrite <- Hn. split; [|split].
  - intros Hrs. apply emitted_bounds. destruct rs; [contradiction|simpl; lia].
  - intros _.
    destruct (export_table_to_json_emits isprintable w name path limit
                Hc Ht) as (w' & E & Hf).
    now rewrite E.
  - intros _.
    destruct (export_table_to_csv_emits isprintable w name path limit
                Hc Ht) as (w' & E & Hf).
    now rewrite E.
Qed.

Lemma exports_write_a_prefix_witness :
  fst (export_table_to_json Demo.always_printable (lit "logs")
         (lit "logs.json") (Some (-7)%Z) Demo.opened) = Ok tt
  /\ assoc (lit "logs.json")
       (files (snd (export_table_to_json Demo.always_printable (lit "logs")
                      (lit "logs.json") (Some (-7)%Z) Demo.opened)))
     = Some (JsonFile (JsonDoc (lit "logs") 1
               (map (render_row Demo.always_printable)
                    (firstn 1 (rows Demo.logs))))).
Proof.
  split; [reflexivity|].
  destruct (@exports_write_a_prefix Demo.always_printable Demo.opened Demo.db
              (lit "logs") (lit "logs.json") (Some (-7)%Z) (rows Demo.logs)
              eq_refl eq_refl) as (_ & H & _).
  apply H. reflexivity.
Defined.

(** X15.  The two formats agree.  For a table whose scan completes and one
    limit, when both exports return, the JSON document's [record_count] is
    the number of its records, and the CSV file is the header followed by
    exactly those records, one [key, value] line each, in the same order. *)
Theorem exports_agree (isprintable : N -> bool) (w : world) (db : database)
    (name json_path csv_path : pystr) (limit : option Z)
    (rs : list (Value * Value)) :
  conn w = Some db ->
  assoc name (tables db) = Some (Scan rs None) ->
  fst (export_table_to_json isprintable name json_path limit w) = Ok tt ->
  fst (export_table_to_csv isprintable name csv_path limit w) = Ok tt ->
  exists doc,
    assoc json_path
      (files (snd (export_table_to_json isprintable name json_path limit w)))
    = Some (JsonFile doc)
    /\ table doc = name
    /\ record_count doc = Z.of_nat (List.length (records doc))
    /\ assoc csv_path
         (files (snd (export_table_to_csv isprintable name csv_path limit w)))
       = Some (CsvFile ([lit "key"; lit "value"]
                        :: map csv_line (records doc))).
Proof.
  intros Hc Ht _ _.
  destruct (export_table_to_json_emits isprintable w name json_path limit
              Hc Ht) as (wj & Hj & Hfj).
  destruct (export_table_to_csv_emits isprintable w name csv_path limit
              Hc Ht) as (wc & Hcsv & Hfc).
  rewrite Hj, Hcsv. cbn [snd].
  eexists. split; [exact Hfj|].
  cbn [table record_count records]. split; [reflexivity|]. split.
  - rewrite length_map, length_firstn.
    f_equal. pose proof (emitted_bounds limit (List.length rs)). lia.
  - rewrite Hfc. now rewrite map_map.
Qed.

Lemma exports_agree_witness :
  exists doc,
    assoc (lit "p.json")
      (files (snd (export_table_to_json Demo.always_printable
                     (lit "products") (lit "p.json") (Some 2%Z)
                     Demo.opened)))
    = Some (JsonFile doc)
    /\ table doc = lit "products"
    /\ record_count doc = Z.of_nat (List.length (records doc))
    /\ assoc (lit "p.csv")
         (files (snd (export_table_to_csv Demo.always_printable
                        (lit "products") (lit "p.csv") (Some 2%Z)
                        Demo.opened)))
       = Some (CsvFile ([lit "key"; lit "value"]
                        :: map csv_line (records doc))).
Proof.
  apply (@exports_agree Demo.always_printable Demo.opened Demo.db
           (lit "products") (lit "p.json") (lit "p.csv") (Some 2%Z)
           (rows Demo.products)).
  - reflexivity.
  - reflexivity.
  - reflexivity.
  - reflexivity.
Defined.

(** ** The codec: what it keeps apart and what it does not *)

Lemma lit_injective (s t : string) : lit s = lit t -> s = t.
Proof.
  unfold lit. intros H.
  rewrite <- (string_of_list_ascii_of_string s),
          <- (string_of_list_ascii_of_string t).
  f_equal. revert H.
  generalize (list_ascii_of_string s), (list_ascii_of_string t).
  induction l as [|a l IH]; intros [|b l']; simpl; try discriminate;
    [reflexivity|].
  intros H. inversion H as [[Hab Hl]]. f_equal; [|now apply IH].
  rewrite <- (ascii_N_embedding a), <- (ascii_N_embedding b).
  now rewrite Hab.
Qed.

Lemma to_int_proper (z : Z) :
  Z.to_int z <> Decimal.Pos Decimal.Nil
  /\ Z.to_int z <> Decimal.Neg Decimal.Nil.
Proof.
  destruct z as [|p|p]; simpl; split; try discriminate;
    intros H; inversion H as [Hp];
    exact (DecimalPos.Unsigned.to_uint_nonnil p Hp).
Qed.

(** X16.  Integers are rendered without loss: two integer keys or values
    with the same rendering are the same integer. *)
Theorem serialize_value_int_injective (isprintable : N -> bool) (a b : Z) :
  _serialize_value isprintable (VInt a) = _serialize_value isprintable (VInt b)
  -> a = b.
Proof.
  cbn [_serialize_value py_str py_repr]. unfold str_of_Z. intros H.
  apply lit_injective in H.
  apply DecimalZ.to_int_inj.
  destruct (to_int_proper a) as [Ha1 Ha2].
  destruct (to_int_proper b) as [Hb1 Hb2].
  pose proof (NilZero.isi _ Ha1 Ha2) as Ia.
  pose proof (NilZero.isi _ Hb1 Hb2) as Ib.
  rewrite H in Ia. rewrite Ia in Ib. now inversion Ib.
Qed.

Lemma serialize_value_int_injective_witness :
  (-12)%Z = (-12)%Z.
Proof.
  apply (@serialize_value_int_injective Demo.always_printable).
  reflexivity.
Defined.

(** X17.  Among byte values the codec confuses nothing within a class: two
    byte strings that are both valid UTF-8, or both invalid, and render
    alike are the same bytes. *)
Theorem serialize_value_bytes_injective_per_class (isprintable : N -> bool)
    (a b : pybytes) :
  (Utf8.decode a = None <-> Utf8.decode b = None) ->
  _serialize_value isprintable (VBytes a)
  = _serialize_value isprintable (VBytes b) ->
  a = b.
Proof.
  intros Hclass H. cbn [_serialize_value] in H.
  destruct (Utf8.decode a) as [ta|] eqn:Ha,
           (Utf8.decode b) as [tb|] eqn:Hb.
  - subst tb. apply decode_encode in Ha, Hb. congruence.
  - destruct Hclass as [_ Hc]. specialize (Hc eq_refl). discriminate.
  - destruct Hclass as [Hc _]. specialize (Hc eq_refl). discriminate.
  - pose proof (unhex_hex a) as Ua. pose proof (unhex_hex b) as Ub.
    rewrite H in Ua. rewrite Ua in Ub. now inversion Ub.
Qed.

Lemma serialize_value_bytes_injective_per_class_witness :
  [xff; x00] = [xff; x00].
Proof.
  apply (@serialize_value_bytes_injective_per_class Demo.always_printable).
  - split; reflexivity.
  - reflexivity.
Defined.

(** Bytes below 0x80 are valid UTF-8 and decode to themselves. *)
Lemma decode_ascii_bytes (bs : pybytes) :
  Forall (fun b => (Byte.to_N b < 128)%N) bs ->
  Utf8.decode bs = Some (map Byte.to_N bs).
Proof.
  induction 1 as [|b bs Hb _ IH]; [reflexivity|].
  cbn [Utf8.decode map]. apply N.ltb_lt in Hb. rewrite Hb, IH. reflexivity.
Qed.

(** X18.  Bytes that are all below 0x80 are rendered as the text with the
    same code points, whatever they are: control characters, quotes and
    commas included, nothing is escaped. *)
Theorem serialize_value_ascii_bytes (isprintable : N -> bool) (bs : pybytes) :
  Forall (fun b => (Byte.to_N b < 128)%N) bs ->
  _serialize_value isprintable (VBytes bs) = map Byte.to_N bs.
Proof.
  intros H. cbn [_serialize_value]. now rewrite (decode_ascii_bytes H).
Qed.

Lemma serialize_value_ascii_bytes_witness :
  _serialize_value Demo.always_printable (VBytes [x61; x2c; x0a; x00])
  = [97; 44; 10; 0]%N.
Proof.
  apply (@serialize_value_ascii_bytes Demo.always_printable
           [x61; x2c; x0a; x00]).
  repeat constructor.
Defined.

Lemma hex_digit_ascii (n : N) : (n < 16)%N -> (Hex.digit n < 128)%N.
Proof. unfold Hex.digit. destruct (n <? 10)%N eqn:E; lia. Qed.

Lemma hex_ascii (bs : pybytes) :
  Forall (fun c => (c < 128)%N) (Hex.hex bs).
Proof.
  induction bs as [|b bs IH]; [constructor|].
  unfold Hex.hex. cbn [flat_map]. apply Forall_app. split; [|exact IH].
  pose proof (Byte.to_N_bounded b).
  unfold Hex.of_byte. repeat constructor; apply hex_digit_ascii; lia.
Qed.

(** X19.  The rendering does not say which branch produced it.  For every
    byte string that is not valid UTF-8 there is a different byte string,
    the ASCII spelling of its hexadecimal form, that is valid UTF-8 and
    renders exactly alike. *)
Theorem serialize_value_hex_collides_with_text (isprintable : N -> bool)
    (b : pybytes) :
  Utf8.decode b = None ->
  let spelled := map byte_of_N (Hex.hex b) in
  spelled <> b
  /\ Utf8.decode spelled = Some (Hex.hex b)
  /\ _serialize_value isprintable (VBytes spelled)
     = _serialize_value isprintable (VBytes b).
Proof.
  intros Hb spelled.
  assert (Hto : map Byte.to_N spelled = Hex.hex b).
  { subst spelled. rewrite map_map. pose proof (hex_ascii b) as Ha.
    induction (Hex.hex b) as [|c l IH]; [reflexivity|].
    apply Forall_inv in Ha as Hc. apply Forall_inv_tail in Ha.
    cbn [map]. rewrite to_N_byte_of_N by lia. f_equal. now apply IH. }
  assert (Hdec : Utf8.decode spelled = Some (Hex.hex b)).
  { rewrite <- Hto. apply decode_ascii_bytes.
    apply Forall_forall. intros x Hx.
    pose proof (hex_ascii b) as Ha. rewrite <- Hto in Ha.
    rewrite Forall_forall in Ha. apply Ha. now apply in_map. }
  split; [|split].
  - intros E. rewrite E in Hdec. congruence.
  - exact Hdec.
  - cbn [_serialize_value]. now rewrite Hdec, Hb.
Qed.

Lemma serialize_value_hex_collides_with_text_witness :
  [x66; x66] <> [xff]
  /\ Utf8.decode [x66; x66] = Some (Hex.hex [xff])
  /\ _serialize_value Demo.always_printable (VBytes [x66; x66])
     = _serialize_value Demo.always_printable (VBytes [xff]).
Proof.
  exact (@serialize_value_hex_collides_with_text Demo.always_printable
           [xff] eq_refl).
Defined.

(** ** The browser as a context manager *)

(** X20.  A [with] block over the browser never leaves the connection
    open.  When the directory cannot be opened the block does not run and
    the error is raised with nothing changed; otherwise the block's own
    result or exception comes out, after the connection was closed, and
    closed once if the block had left it open. *)
Theorem with_browser_closes_connection {A} (body : M A) (w : world) :
  match disk w with
  | Invalid why =>
      with_browser body w
      = (Raise (RuntimeError (lit "Failed to open WiredTiger database: "
                              ++ why)), w)
  | Valid db =>
      conn (snd (open w)) = Some db
      /\ fst (with_browser body w) = fst (body (snd (open w)))
      /\ conn (snd (with_browser body w)) = None
      /\ released (snd (with_browser body w))
         = match conn (snd (body (snd (open w)))) with
           | Some _ => S (released (snd (body (snd (open w)))))
           | None => released (snd (body (snd (open w))))
           end
  end.
Proof.
  destruct (disk w) as [db|why] eqn:Hd.
  - unfold with_browser, __enter__, __exit__, bind.
    destruct (open w) as [r w1] eqn:Ho.
    unfold open in Ho. rewrite Hd in Ho. unfold modify, print, bind in Ho.
    injection Ho as Hr Hw.
    assert (Hc1 : conn w1 = Some db) by (rewrite <- Hw; reflexivity).
    clear Hw. subst r. cbn [fst snd]. split; [exact Hc1|].
    unfold try_finally. destruct (body w1) as [rb w2]. cbn [fst snd].
    unfold close. destruct (conn w2) as [db'|] eqn:Hc2.
    + unfold modify, print, bind. cbn. repeat split.
    + cbn. repeat split. exact Hc2.
  - unfold with_browser, __enter__, bind, open. now rewrite Hd.
Qed.

(** ** The command line *)

Section CommandFacts.

Variable path_str : pystr -> pystr.
Variable path_join : pystr -> pystr -> pystr.
Variable isprintable : N -> bool.

Lemma lift_close_closes (p : process) :
  exists p',
    Cli.lift __exit__ p = (Done tt, p')
    /\ conn (browser p') = None
    /\ stderr p' = stderr p /\ made p' = made p /\ kind p' = kind p
    /\ files (browser p') = files (browser p)
    /\ parents (browser p') = parents (browser p).
Proof.
  unfold Cli.lift, __exit__, close.
  destruct (conn (browser p)) eqn:Hc.
  - unfold modify, print, bind. cbn. eexists. split; [reflexivity|].
    repeat split.
  - eexists. split; [reflexivity|]. cbn. repeat split. exact Hc.
Qed.

(** Whatever the block does, the browser is closed after the [with]. *)
Lemma with_new_browser_closed {A} (db_path : pystr) (body : C A)
    (p : process) :
  conn (browser (snd (Cli.with_new_browser path_str db_path body p))) = None.
Proof.
  destruct p as [w k se md].
  unfold Cli.with_new_browser, Cli.cbind, Cli.__init__.
  cbn [browser kind Cli.set_browser].
  destruct k; cbn [fst snd browser conn]; try reflexivity.
  unfold Cli.lift at 1. unfold __enter__, open.
  cbn [browser Cli.set_browser disk].
  destruct (disk w) as [db|why]; [|reflexivity].
  cbv beta iota delta [modify print bind fst snd].
  match goal with |- context [body ?q] => destruct (body q) as [r p1] end.
  destruct (lift_close_closes p1) as (p2 & Hrun & Hconn & _).
  rewrite Hrun. exact Hconn.
Qed.

Lemma report_run (e : cli_exn) (p : process) :
  Cli.report e p
  = (Exit 1, Process (browser p) (kind p)
               (stderr p ++ [lit "Error: " ++ cli_exn_str e]) (made p)).
Proof. reflexivity. Qed.

(** The last step of every command: a caught exception becomes status 1
    with one line on standard error; the browser is not touched. *)
Lemma try_report (c : C unit) (p : process) :
  browser (snd (Cli.try_except_Exception c Cli.report p))
  = browser (snd (c p))
  /\ Cli.status (Cli.try_except_Exception c Cli.report p)
     = match fst (c p) with
       | Done _ => 0%Z
       | Fail _ => 1%Z
       | Exit n => n
       end.
Proof.
  unfold Cli.try_except_Exception, Cli.status.
  destruct (c p) as [[u|e|n] p1]; cbn [fst snd]; split; reflexivity.
Qed.

Lemma exits_done {A} (a : A) : exits_with_1 (Cli.done a).
Proof. intros p n H. discriminate H. Qed.

Lemma exits_sys_exit_1 {A} : exits_with_1 (@Cli.sys_exit A 1).
Proof. intros p n H. now inversion H. Qed.

Lemma exits_lift {A} (m : M A) : exits_with_1 (Cli.lift m).
Proof.
  intros p n H. unfold Cli.lift in H.
  destruct (m (browser p)) as [[a|e] w]; discriminate H.
Qed.

Lemma exits_echo_err (line : pystr) : exits_with_1 (Cli.echo_err line).
Proof. intros p n H. discriminate H. Qed.

Lemma exits_mkdir (dir : pystr) : exits_with_1 (Cli.mkdir dir).
Proof. intros p n H. discriminate H. Qed.

Lemma exits_cbind {A B} (c : C A) (k : A -> C B) :
  exits_with_1 c -> (forall a, exits_with_1 (k a)) ->
  exits_with_1 (Cli.cbind c k).
Proof.
  intros Hc Hk p n H. unfold Cli.cbind in H. specialize (Hc p).
  destruct (c p) as [[a|e|n'] p1]; cbn [fst] in *.
  - now apply (Hk a p1).
  - discriminate H.
  - inversion H. subst. now apply Hc.
Qed.

Lemma exits_for_each {A} (body : A -> C unit) (xs : list A) :
  (forall x, exits_with_1 (body x)) -> exits_with_1 (Cli.for_each body xs).
Proof.
  intros Hb. induction xs as [|x xs IH]; cbn [Cli.for_each].
  - apply exits_done.
  - apply exits_cbind; [apply Hb | intros; exact IH].
Qed.

Lemma exits_try_except {A} (body : C A) (handler : cli_exn -> C A) :
  exits_with_1 body -> (forall e, exits_with_1 (handler e)) ->
  exits_with_1 (Cli.try_except_Exception body handler).
Proof.
  intros Hb Hh p n H. unfold Cli.try_except_Exception in H.
  specialize (Hb p). destruct (body p) as [[a|e|n'] p1]; cbn [fst] in *.
  - discriminate H.
  - now apply (Hh e p1).
  - inversion H. subst. now apply Hb.
Qed.

Lemma exits_report (e : cli_exn) : exits_with_1 (Cli.report e).
Proof. intros p n H. rewrite report_run in H. now inversion H. Qed.

Lemma exits_with_new_browser {A} (db_path : pystr) (body : C A) :
  exits_with_1 body ->
  exits_with_1 (Cli.with_new_browser path_str db_path body).
Proof.
  intros Hb. unfold Cli.with_new_browser.
  apply exits_cbind.
  { intros p n H. unfold Cli.__init__ in H.
    destruct (kind (Cli.set_browser _ p)); discriminate H. }
  intros _. apply exits_cbind; [apply exits_lift|]. intros _ p n H.
  specialize (Hb p). destruct (body p) as [r p1].
  destruct (lift_close_closes p1) as (p2 & Hrun & _).
  rewrite Hrun in H. cbn [fst] in *. now apply Hb.
Qed.

Lemma exits_list_tables (db_path : pystr) :
  exits_with_1 (Cli.list_tables path_str db_path).
Proof.
  unfold Cli.list_tables.
  apply exits_try_except; [|apply exits_report].
  apply exits_with_new_browser.
  apply exits_cbind; [apply exits_lift|]. intros [|t ts].
  - apply exits_lift.
  - repeat (apply exits_cbind; [apply exits_lift|]; intros _).
    apply exits_for_each. intros x. apply exits_lift.
Qed.

Lemma exits_info (db_path table_name : pystr) :
  exits_with_1 (Cli.info path_str db_path table_name).
Proof.
  unfold Cli.info.
  apply exits_try_except; [|apply exits_report].
  apply exits_with_new_browser.
  apply exits_cbind; [apply exits_lift|]. intros ti.
  repeat (apply exits_cbind; [apply exits_lift|]; intros _).
  destruct (info_exists ti); [|apply exits_lift].
  apply exits_cbind; [apply exits_lift|]. intros _.
  apply exits_cbind.
  - destruct (Cli.truthy (info_config ti)); [|apply exits_done].
    apply exits_cbind; [apply exits_lift|]. intros _. apply exits_lift.
  - intros _. destruct (Cli.truthy (info_error ti));
      [apply exits_echo_err | apply exits_done].
Qed.

Lemma exits_export (db_path table_name output_file : pystr)
    (fmt : Cli.format) (limit : option Z) :
  exits_with_1
    (Cli.export path_str isprintable db_path table_name output_file fmt
       limit).
Proof.
  unfold Cli.export.
  apply exits_try_except; [|apply exits_report].
  apply exits_with_new_browser.
  apply exits_cbind; [apply exits_lift|]. intros tables.
  apply exits_cbind.
  - destruct (negb (Cli.member table_name tables)); [|apply exits_done].
    repeat (apply exits_cbind; [apply exits_echo_err|]; intros _).
    apply exits_cbind.
    + apply exits_for_each. intros x. apply exits_echo_err.
    + intros _. apply exits_sys_exit_1.
  - intros _. apply exits_cbind; [|intros _; apply exits_lift].
    destruct fmt; apply exits_lift.
Qed.

Lemma exits_export_all (db_path output_dir : pystr) (fmt : Cli.format)
    (limit : option Z) :
  exits_with_1
    (Cli.export_all path_str path_join isprintable db_path output_dir fmt
       limit).
Proof.
  unfold Cli.export_all.
  apply exits_try_except; [|apply exits_report].
  apply exits_cbind; [apply exits_mkdir|]. intros _.
  apply exits_with_new_browser.
  apply exits_cbind; [apply exits_lift|]. intros [|t ts].
  - apply exits_lift.
  - repeat (apply exits_cbind; [apply exits_lift|]; intros _).
    apply exits_cbind; [|intros _; apply exits_lift].
    apply exits_for_each. intros x.
    apply exits_try_except; [|intros e; apply exits_echo_err].
    destruct fmt; apply exits_lift.
Qed.

Lemma status_0_or_1 (c : C unit) (p : process) :
  exits_with_1 c -> Cli.status (c p) = 0%Z \/ Cli.status (c p) = 1%Z.
Proof.
  intros Hc. unfold Cli.status. specialize (Hc p).
  destruct (fst (c p)) as [u|e|n];
    [now left | now right | right; now apply Hc].
Qed.

End CommandFacts.

(** X21.  Every command ends with the browser closed, whatever happened in
    between: a directory that is no database, a failing scan, an unknown
    table, [sys.exit] inside the [with] block.  Its exit status is 0 or
    1. *)
Theorem commands_close_the_connection (path_str : pystr -> pystr)
    (path_join : pystr -> pystr -> pystr) (isprintable : N -> bool)
    (db_path table_name out : pystr) (fmt : Cli.format) (limit : option Z)
    (p : process) :
  let ends_closed (r : outcome unit * process) :=
    conn (browser (snd r)) = None
    /\ (Cli.status r = 0%Z \/ Cli.status r = 1%Z) in
  ends_closed (Cli.list_tables path_str db_path p)
  /\ ends_closed (Cli.info path_str db_path table_name p)
  /\ ends_closed (Cli.export path_str isprintable db_path table_name out
                    fmt limit p)
  /\ ends_closed (Cli.export_all path_str path_join isprintable db_path out
                    fmt limit p).
Proof.
  cbv zeta. repeat split.
  - unfold Cli.list_tables. rewrite (proj1 (try_report _ p)).
    apply with_new_browser_closed.
  - apply status_0_or_1, exits_list_tables.
  - unfold Cli.info. rewrite (proj1 (try_report _ p)).
    apply with_new_browser_closed.
  - apply status_0_or_1, exits_info.
  - unfold Cli.export. rewrite (proj1 (try_report _ p)).
    apply with_new_browser_closed.
  - apply status_0_or_1, exits_export.
  - unfold Cli.export_all. rewrite (proj1 (try_report _ p)).
    unfold Cli.cbind at 1, Cli.mkdir.
    apply with_new_browser_closed.
  - apply status_0_or_1, exits_export_all.
Qed.

(** ** The command line: exit statuses *)

Section CommandStatus.

Variable path_str : pystr -> pystr.
Variable path_join : pystr -> pystr -> pystr.
Variable isprintable : N -> bool.

(** On a directory that holds a database the [with] statement runs its
    block on an open browser, and hands the block's outcome on once the
    browser is closed. *)
Lemma with_new_browser_enters {A} (db_path : pystr) (body : C A)
    (p : process) (db : database) :
  kind p = Directory ->
  disk (browser p) = Valid db ->
  exists p1,
    conn (browser p1) = Some db
    /\ files (browser p1) = files (browser p)
    /\ parents (browser p1) = parents (browser p)
    /\ stderr p1 = stderr p
    /\ made p1 = made p
    /\ forall r p2, body p1 = (r, p2) ->
         exists p3,
           Cli.with_new_browser path_str db_path body p = (r, p3)
           /\ conn (browser p3) = None
           /\ files (browser p3) = files (browser p2)
           /\ parents (browser p3) = parents (browser p2)
           /\ stderr p3 = stderr p2
           /\ made p3 = made p2.
Proof.
  destruct p as [w k se md]. cbn [kind browser]. intros -> Hd.
  eexists. split; [|split; [|split; [|split; [|split]]]].
  6:{ intros r p2 Hb.
      destruct (lift_close_closes p2)
        as (p3 & Hrun & Hconn & Hse & Hmd & _ & Hf & Hp).
      exists p3. split; [|repeat split; assumption].
      unfold Cli.with_new_browser, Cli.cbind, Cli.__init__.
      cbn [browser kind Cli.set_browser].
      unfold Cli.lift at 1. unfold __enter__, open.
      cbn [browser Cli.set_browser disk]. rewrite Hd.
      cbv beta iota delta [modify print bind fst snd].
      cbn [Cli.set_browser kind stderr made].
      rewrite Hb, Hrun. reflexivity. }
  all: reflexivity.
Qed.

(** On anything else the block does not run: the command fails before. *)
Lemma with_new_browser_refuses {A} (db_path : pystr) (body : C A)
    (p : process) :
  kind p <> Directory \/ (exists why, disk (browser p) = Invalid why) ->
  exists e p',
    Cli.with_new_browser path_str db_path body p = (Fail e, p').
Proof.
  destruct p as [w k se md]. cbn [kind browser]. intros H.
  unfold Cli.with_new_browser, Cli.cbind, Cli.__init__.
  cbn [browser kind Cli.set_browser].
  destruct k; try (do 2 eexists; reflexivity).
  destruct H as [H|(why & Hd)]; [contradiction|].
  unfold Cli.lift at 1. unfold __enter__, open.
  cbn [browser Cli.set_browser disk]. rewrite Hd.
  do 2 eexists. reflexivity.
Qed.

Lemma done_echo (line : pystr) : always_done (Cli.echo line).
Proof. intros p. do 2 eexists. reflexivity. Qed.

Lemma done_echo_err (line : pystr) : always_done (Cli.echo_err line).
Proof. intros p. do 2 eexists. reflexivity. Qed.

Lemma done_done {A} (a : A) : always_done (Cli.done a).
Proof. intros p. do 2 eexists. reflexivity. Qed.

Lemma done_cbind {A B} (c : C A) (k : A -> C B) :
  always_done c -> (forall a, always_done (k a)) ->
  always_done (Cli.cbind c k).
Proof.
  intros Hc Hk p. destruct (Hc p) as (a & p1 & H1).
  destruct (Hk a p1) as (b & p2 & H2).
  exists b, p2. unfold Cli.cbind. now rewrite H1.
Qed.



Lemma lift_run {A} (m : M A) (p : process) :
  Cli.lift m p
  = (match fst (m (browser p)) with
     | Ok a => Done a
     | Raise e => Fail (BrowserError e)
     end, Cli.set_browser (snd (m (browser p))) p).
Proof.
  unfold Cli.lift. now destruct (m (browser p)) as [[a|e] w].
Qed.



End CommandStatus.


Section CommandRuns.

Variable path_str : pystr -> pystr.
Variable isprintable : N -> bool.

Lemma for_each_echo_err (f : pystr -> pystr) (xs : list pystr)
    (p : process) :
  Cli.for_each (fun x => Cli.echo_err (f x)) xs p
  = (Done tt, Process (browser p) (kind p) (stderr p ++ map f xs) (made p)).
Proof.
  revert p. induction xs as [|x xs IH]; intros p.
  - cbn. rewrite app_nil_r. now destruct p.
  - cbn [Cli.for_each map]. unfold Cli.cbind, Cli.echo_err at 1.
    rewrite IH. cbn [browser kind stderr made]. now rewrite <- app_assoc.
Qed.

Lemma member_In (x : pystr) (xs : list pystr) :
  Cli.member x xs = true <-> In x xs.
Proof.
  unfold Cli.member. rewrite existsb_exists. split.
  - intros (y & Hy & E). apply str_eqb_eq in E. now subst y.
  - intros H. exists x. split; [exact H|apply str_eqb_refl].
Qed.

(** Every way [get_table_info] can end on an open browser. *)
Lemma get_table_info_outcome (w : world) (db : database) (name : pystr) :
  conn w = Some db ->
  match assoc (lit "table:" ++ name) (rows (metadata db)),
        fault (metadata db) with
  | None, Some m => fst (get_table_info name w) = Raise (WiredTigerError m)
  | _, _ => exists info, fst (get_table_info name w) = Ok info
  end.
Proof.
  intros Hc.
  destruct (assoc (lit "table:" ++ name) (rows (metadata db)))
    as [cfg|] eqn:Hk.
  - destruct (assoc name (tables db)) as [[rs [m|]]|] eqn:Ht;
      eexists;
      enter_get_table_info Hc; rewrite find_table_run, Hk;
      cbn [info_exists info_name info_config info_record_count info_error];
      unfold try_except, Engine.open_table_cursor, Engine.close_cursor,
        modify;
      rewrite Ht; unfold bind, Engine.new_cursor, ret, raise;
      cbn [rows fault];
      rewrite ?count_rows_fault, ?count_rows_complete;
      unfold Engine.close_session, modify; reflexivity.
  - destruct (fault (metadata db)) as [m|] eqn:Hf.
    + enter_get_table_info Hc. rewrite find_table_run, Hk, Hf.
      unfold Engine.close_session, modify. reflexivity.
    + eexists. enter_get_table_info Hc. rewrite find_table_run, Hk, Hf.
      cbn [info_exists].
      unfold Engine.close_cursor, Engine.close_session, modify. reflexivity.
Qed.

(** What [info] does with the dictionary never fails. *)
Lemma info_report_done (table_name : pystr) (table_info : table_info) :
  always_done
    (Cli.cbind (Cli.echo ([10%N] ++ lit "Table Information: " ++ table_name))
       (fun _ =>
     Cli.cbind (Cli.echo Cli.rule) (fun _ =>
     Cli.cbind (Cli.echo (lit "Exists: "
                          ++ Cli.str_of_bool (info_exists table_info)))
       (fun _ =>
     if info_exists table_info then
       Cli.cbind (Cli.echo (lit "Record Count: "
                            ++ str_of_Z (info_record_count table_info)))
         (fun _ =>
       Cli.cbind (if Cli.truthy (info_config table_info) then
                    Cli.cbind (Cli.echo ([10%N] ++ lit "Configuration:"))
                      (fun _ =>
                    Cli.echo (lit "  "
                              ++ Cli.text_of (info_config table_info)))
                  else Cli.done tt) (fun _ =>
       if Cli.truthy (info_error table_info) then
         Cli.echo_err ([10%N] ++ lit "Warning: "
                       ++ Cli.text_of (info_error table_info))
       else Cli.done tt))
     else
       Cli.echo (lit "Table '" ++ table_name
                 ++ lit "' does not exist in the database."))))).
Proof.
  repeat (apply done_cbind; [apply done_echo|]; intros _).
  destruct (info_exists table_info); [|apply done_echo].
  apply done_cbind; [apply done_echo|]. intros _.
  apply done_cbind.
  - destruct (Cli.truthy (info_config table_info)); [|apply done_done].
    apply done_cbind; [apply done_echo|]. intros _. apply done_echo.
  - intros _. destruct (Cli.truthy (info_error table_info));
      [apply done_echo_err | apply done_done].
Qed.

End CommandRuns.

(** X23.  [info] exits with status 0 exactly when the database opens and
    the catalog lookup itself does not fail.  A table that does not exist,
    that cannot be opened, or whose count failed is reported under status
    0; the count's failure shows only as a warning on standard error. *)
Theorem info_status (path_str : pystr -> pystr) (db_path table_name : pystr)
    (p : process) :
  Cli.status (Cli.info path_str db_path table_name p) = 0%Z
  <-> kind p = Directory
      /\ exists db,
           disk (browser p) = Valid db
           /\ (assoc (lit "table:" ++ table_name) (rows (metadata db))
               <> None
               \/ fault (metadata db) = None).
Proof.
  unfold Cli.info.
  rewrite (proj2 (try_report _ p)).
  match goal with
  | |- context [Cli.with_new_browser _ _ ?body _] => set (blk := body)
  end.
  destruct (kind p) eqn:Hk.
  1,2: (destruct (@with_new_browser_refuses path_str unit db_path blk p)
          as (e & p' & Hrun);
        [left; rewrite Hk; discriminate|];
        rewrite Hrun; cbn [fst];
        split; [discriminate | intros [H _]; discriminate H]).
  destruct (disk (browser p)) as [db|why] eqn:Hd.
  2:{ destruct (@with_new_browser_refuses path_str unit db_path blk p)
        as (e & p' & Hrun).
      { right. now exists why. }
      rewrite Hrun. cbn [fst].
      split; [discriminate | intros (_ & db & H & _); discriminate H]. }
  destruct (@with_new_browser_enters path_str unit db_path blk p db Hk Hd)
    as (p1 & Hc1 & _ & _ & _ & _ & Hwith).
  destruct (blk p1) as [r p2] eqn:Hb.
  destruct (Hwith r p2 eq_refl) as (p3 & Hrun & _).
  rewrite Hrun. cbn [fst]. subst blk. unfold Cli.cbind at 1 in Hb.
  rewrite lift_run in Hb.
  pose proof (get_table_info_outcome (browser p1) table_name Hc1) as Ho.
  destruct (assoc (lit "table:" ++ table_name) (rows (metadata db)))
    as [cfg|] eqn:Ha; [|destruct (fault (metadata db)) as [m|] eqn:Hf].
  - destruct Ho as (ti & Hti). rewrite Hti in Hb.
    destruct (info_report_done table_name ti
                (Cli.set_browser (snd (get_table_info table_name
                                         (browser p1))) p1))
      as (u & q & E).
    rewrite E in Hb. injection Hb as <- _.
    split; [intros _ | reflexivity].
    split; [reflexivity|]. exists db. split; [reflexivity|].
    left. rewrite Ha. discriminate.
  - rewrite Ho in Hb. injection Hb as <- _.
    split; [discriminate|]. intros (_ & db' & H & [Hn|Hn]).
    + injection H as <-. now rewrite Ha in Hn.
    + injection H as <-. congruence.
  - destruct Ho as (ti & Hti). rewrite Hti in Hb.
    destruct (info_report_done table_name ti
                (Cli.set_browser (snd (get_table_info table_name
                                         (browser p1))) p1))
      as (u & q & E).
    rewrite E in Hb. injection Hb as <- _.
    split; [intros _ | reflexivity].
    split; [reflexivity|]. exists db. split; [reflexivity|]. now right.
Qed.

(** X24.  [export] refuses a table that [list_tables] does not return: it
    prints the error and the tables there are on standard error, exits
    with status 1 from inside the [with] block, which still closes the
    browser, and writes no file, for either format and any limit. *)
Theorem export_unknown_table (path_str : pystr -> pystr)
    (isprintable : N -> bool) (db_path table_name output_file : pystr)
    (fmt : Cli.format) (limit : option Z) (p : process) (db : database) :
  kind p = Directory ->
  disk (browser p) = Valid db ->
  fault (metadata db) = None ->
  ~ In (lit "table:" ++ table_name) (map fst (rows (metadata db))) ->
  exists p',
    Cli.export path_str isprintable db_path table_name output_file fmt
      limit p = (Exit 1, p')
    /\ conn (browser p') = None
    /\ files (browser p') = files (browser p)
    /\ parents (browser p') = parents (browser p)
    /\ stderr p'
       = stderr p
         ++ [lit "Error: Table '" ++ table_name
             ++ lit "' not found in database.";
             [10%N] ++ lit "Available tables:"]
         ++ map Cli.bullet
              (sorted (map (skipn 6)
                 (filter is_table_key (map fst (rows (metadata db)))))).
Proof.
  intros Hk Hd Hf Hn.
  unfold Cli.export.
  set (blk := Cli.cbind (Cli.lift list_tables) _).
  destruct (@with_new_browser_enters path_str unit db_path blk p db Hk Hd)
    as (p1 & Hc1 & Hf1 & Hp1 & Hs1 & _ & Hwith).
  destruct (list_tables_run _ Hc1 Hf) as (w' & Hl).
  assert (Hro : same_outside_engine (browser p1) w').
  { pose proof (@preserves_list_tables same_outside_engine
                  same_outside_engine_refl same_outside_engine_trans
                  (fun n ss cs w => ltac:(repeat split)) (browser p1)) as H.
    now rewrite Hl in H. }
  destruct Hro as (_ & _ & _ & _ & Hfw & Hpw & _).
  set (names := sorted (map (skipn 6)
                 (filter is_table_key (map fst (rows (metadata db)))))) in *.
  assert (Hmem : Cli.member table_name names = false).
  { destruct (Cli.member table_name names) eqn:E; [|reflexivity].
    exfalso. apply Hn. apply member_In in E. apply stripped_names.
    eapply Permutation_in; [apply sorted_perm|exact E]. }
  assert (Hb : blk p1
               = (Exit 1,
                  Process w' (kind p1)
                    (stderr p1
                     ++ [lit "Error: Table '" ++ table_name
                         ++ lit "' not found in database.";
                         [10%N] ++ lit "Available tables:"]
                     ++ map Cli.bullet names) (made p1))).
  { subst blk. unfold Cli.cbind at 1. rewrite lift_run, Hl. cbn [fst snd].
    rewrite Hmem. cbn [negb]. unfold Cli.cbind at 1.
    unfold Cli.cbind at 1. unfold Cli.echo_err at 1.
    unfold Cli.cbind at 1. unfold Cli.echo_err at 1.
    unfold Cli.cbind at 1. rewrite for_each_echo_err.
    unfold Cli.sys_exit. cbn [browser kind stderr made Cli.set_browser].
    rewrite <- !app_assoc. reflexivity. }
  destruct (Hwith _ _ Hb) as (p3 & Hrun & Hc3 & Hf3 & Hp3 & Hs3 & _).
  exists p3. split.
  - unfold Cli.try_except_Exception. now rewrite Hrun.
  - cbn [browser stderr] in Hf3, Hp3, Hs3.
    split; [exact Hc3|]. split; [congruence|]. split; [congruence|].
    rewrite Hs3, Hs1. reflexivity.
Qed.

Lemma export_unknown_table_witness :
  exists p',
    Cli.export (fun s => s) Demo.always_printable (lit "/tmp/demo_wt_db")
      (lit "orders") (lit "orders.json") Cli.json None Demo2.shell
    = (Exit 1, p')
    /\ conn (browser p') = None
    /\ files (browser p') = files (browser Demo2.shell)
    /\ parents (browser p') = parents (browser Demo2.shell)
    /\ stderr p'
       = stderr Demo2.shell
         ++ [lit "Error: Table '" ++ lit "orders"
             ++ lit "' not found in database.";
             [10%N] ++ lit "Available tables:"]
         ++ map Cli.bullet
              (sorted (map (skipn 6)
                 (filter is_table_key
                    (map fst (rows (metadata Demo.db)))))).
Proof.
  apply (@export_unknown_table (fun s => s) Demo.always_printable
           (lit "/tmp/demo_wt_db") (lit "orders") (lit "orders.json")
           Cli.json None Demo2.shell Demo.db).
  - reflexivity.
  - reflexivity.
  - reflexivity.
  - vm_compute. intros H.
    repeat (destruct H as [H|H]; [discriminate H|]). exact H.
Defined.

(** ** The command line: what the commands print and write *)

Section CommandOutput.

Variable path_str : pystr -> pystr.
Variable path_join : pystr -> pystr -> pystr.
Variable isprintable : N -> bool.

(** The [with] statement on a directory that holds a database, as an
    equation. *)
Lemma with_new_browser_run {A} (dir : pystr) (body : C A) (p : process)
    (db : database) :
  kind p = Directory ->
  disk (browser p) = Valid db ->
  Cli.with_new_browser path_str dir body p
  = (fst (body (entered (path_str dir) db p)),
     exited (snd (body (entered (path_str dir) db p)))).
Proof.
  destruct p as [w k se md]. cbn [kind browser]. intros -> Hd.
  unfold Cli.with_new_browser, Cli.cbind, Cli.__init__.
  cbn [browser kind Cli.set_browser].
  unfold Cli.lift at 1. unfold __enter__, open.
  cbn [browser Cli.set_browser disk]. rewrite Hd.
  cbv beta iota delta [modify print bind fst snd].
  cbn [Cli.set_browser kind stderr made].
  unfold entered, exited. cbn [browser kind stderr made].
  rewrite ?Hd.
  cbn [Cli.set_browser browser kind stderr made set_conn set_stdout db_path
       disk conn released next_handle sessions cursors files parents stdout].
  match goal with
  | |- (let (r, p') := body ?q1 in _) = (let (x, _) := body ?q2 in x, _) =>
    change q1 with q2; destruct (body q2) as [r p2]
  end.
  destruct (lift_close_closes p2) as (p3 & Hrun & _).
  rewrite Hrun. reflexivity.
Qed.

Lemma exited_open (p : process) (db : database) :
  conn (browser p) = Some db ->
  conn (browser (exited p)) = None
  /\ stdout (browser (exited p))
     = stdout (browser p) ++ [lit "Database connection closed."]
  /\ files (browser (exited p)) = files (browser p)
  /\ stderr (exited p) = stderr p.
Proof.
  intros Hc. unfold exited, Cli.lift, __exit__, close. rewrite Hc.
  unfold modify, print, bind. cbn. repeat split.
Qed.

Lemma for_each_echo (f : pystr -> pystr) (xs : list pystr) (p : process) :
  exists p',
    Cli.for_each (fun x => Cli.echo (f x)) xs p = (Done tt, p')
    /\ stdout (browser p') = stdout (browser p) ++ map f xs
    /\ conn (browser p') = conn (browser p)
    /\ stderr p' = stderr p.
Proof.
  revert p. induction xs as [|x xs IH]; intros p.
  - exists p. cbn. rewrite app_nil_r. repeat split.
  - cbn [Cli.for_each map]. unfold Cli.cbind, Cli.echo at 1, Cli.lift, print,
      modify.
    match goal with
    | |- context [Cli.for_each _ xs ?q] =>
      destruct (IH q) as (p' & Hrun & Hout & Hconn & Herr)
    end.
    exists p'. rewrite Hrun. split; [reflexivity|].
    rewrite Hout, Hconn, Herr. cbn. rewrite <- app_assoc. repeat split.
Qed.

End CommandOutput.

(** X25.  On a database that opens and whose catalog can be read,
    [list-tables] exits with status 0, writes nothing on standard error,
    and prints, between the lines of [open] and [close], either the notice
    that there are no tables or the count and one line per table, in
    ascending order. *)
Theorem list_tables_command_output (path_str : pystr -> pystr)
    (db_path : pystr) (p : process) (db : database) :
  kind p = Directory ->
  disk (browser p) = Valid db ->
  fault (metadata db) = None ->
  let names := sorted (map (skipn 6)
                 (filter is_table_key (map fst (rows (metadata db))))) in
  exists p',
    Cli.list_tables path_str db_path p = (Done tt, p')
    /\ stderr p' = stderr p
    /\ stdout (browser p')
       = stdout (browser p)
         ++ [lit "Successfully opened WiredTiger database at: "
             ++ path_str db_path]
         ++ match names with
            | [] => [lit "No tables found in " ++ db_path]
            | _ :: _ =>
              [[10%N] ++ lit "Found "
               ++ str_of_Z (Z.of_nat (List.length names))
               ++ lit " table(s) in " ++ db_path ++ lit ":";
               Cli.rule]
              ++ map Cli.bullet names
            end
         ++ [lit "Database connection closed."].
Proof.
  intros Hk Hd Hf names.
  unfold Cli.list_tables, Cli.try_except_Exception.
  rewrite (with_new_browser_run path_str db_path _ p Hk Hd).
  set (p1 := entered (path_str db_path) db p).
  set (blk := Cli.cbind (Cli.lift list_tables) _).
  assert (Hc1 : conn (browser p1) = Some db) by reflexivity.
  destruct (list_tables_run _ Hc1 Hf) as (w' & Hl).
  assert (Hro : same_outside_engine (browser p1) w').
  { pose proof (@preserves_list_tables same_outside_engine
                  same_outside_engine_refl same_outside_engine_trans
                  (fun n ss cs w => ltac:(repeat split)) (browser p1)) as H.
    now rewrite Hl in H. }
  destruct Hro as (_ & _ & Hcw & _ & _ & _ & Hsw).
  assert (Hb : exists p2,
             blk p1 = (Done tt, p2)
             /\ conn (browser p2) = Some db
             /\ stderr p2 = stderr p
             /\ stdout (browser p2)
                = stdout (browser p1)
                  ++ match names with
                     | [] => [lit "No tables found in " ++ db_path]
                     | _ :: _ =>
                       [[10%N] ++ lit "Found "
                        ++ str_of_Z (Z.of_nat (List.length names))
                        ++ lit " table(s) in " ++ db_path ++ lit ":";
                        Cli.rule]
                       ++ map Cli.bullet names
                     end).
  { subst blk. unfold Cli.cbind at 1. rewrite lift_run, Hl. cbn [fst snd].
    fold names. destruct names as [|t ts].
    - unfold Cli.echo, Cli.lift, print, modify. cbn [fst snd].
      eexists. split; [reflexivity|].
      cbn [browser stderr Cli.set_browser set_stdout stdout conn].
      rewrite Hcw, Hsw. repeat split.
    - unfold Cli.cbind at 1. unfold Cli.echo at 1, Cli.lift, print, modify.
      cbn [fst snd]. unfold Cli.cbind at 1.
      unfold Cli.echo at 1, Cli.lift, print, modify. cbn [fst snd].
      match goal with
      | |- context [Cli.for_each _ (t :: ts) ?q] =>
        destruct (for_each_echo Cli.bullet (t :: ts) q)
          as (p2 & Hrun & Hout & Hconn & Herr)
      end.
      exists p2. split; [exact Hrun|].
      rewrite Hconn, Herr, Hout.
      cbn [browser stderr Cli.set_browser set_stdout stdout conn].
      rewrite Hcw, Hsw, <- !app_assoc. repeat split. }
  destruct Hb as (p2 & Hb & Hc2 & He2 & Ho2).
  rewrite Hb. cbn [fst snd].
  destruct (exited_open p2 Hc2) as (_ & Ho & _ & He).
  eexists. split; [reflexivity|].
  rewrite He, Ho, He2, Ho2. split; [reflexivity|].
  unfold p1, entered. cbn [browser stdout]. now rewrite <- !app_assoc.
Qed.

Lemma list_tables_command_output_witness :
  exists p',
    Cli.list_tables (fun s => s) (lit "/tmp/demo_wt_db") Demo2.shell
    = (Done tt, p')
    /\ stderr p' = []
    /\ stdout (browser p')
       = [lit "Successfully opened WiredTiger database at: /tmp/demo_wt_db";
          [10%N] ++ lit "Found 4 table(s) in /tmp/demo_wt_db:";
          Cli.rule;
          Cli.bullet (lit "damaged"); Cli.bullet (lit "logs");
          Cli.bullet (lit "products"); Cli.bullet (lit "users");
          lit "Database connection closed."].
Proof.
  exact (@list_tables_command_output (fun s => s) (lit "/tmp/demo_wt_db")
           Demo2.shell Demo.db eq_refl eq_refl eq_refl).
Defined.

(** The run of [export] on a table that is listed and whose scan
    completes, when every write goes through. *)
Lemma export_command_run (path_str : pystr -> pystr)
    (isprintable : N -> bool) (db_path table_name output_file : pystr)
    (fmt : Cli.format) (limit : option Z) (p : process) (db : database)
    (rs : list (Value * Value)) :
  kind p = Directory ->
  disk (browser p) = Valid db ->
  fault (metadata db) = None ->
  In (lit "table:" ++ table_name) (map fst (rows (metadata db))) ->
  assoc table_name (tables db) = Some (Scan rs None) ->
  let n := emitted limit (List.length rs) in
  exists p',
    Cli.export path_str isprintable db_path table_name output_file fmt
      limit p = (Done tt, p')
    /\ conn (browser p') = None
    /\ stderr p' = stderr p
    /\ assoc output_file (files (browser p'))
       = Some (match fmt with
               | Cli.json =>
                 JsonFile (JsonDoc table_name (Z.of_nat n)
                             (map (render_row isprintable) (firstn n rs)))
               | Cli.csv =>
                 CsvFile ([lit "key"; lit "value"]
                          :: map (fun kv =>
                                    csv_line (render_row isprintable kv))
                                 (firstn n rs))
               end).
Proof.
  intros Hk Hd Hf Hin Ht n.
  unfold Cli.export, Cli.try_except_Exception.
  rewrite (with_new_browser_run path_str db_path _ p Hk Hd).
  set (p1 := entered (path_str db_path) db p).
  set (blk := Cli.cbind (Cli.lift list_tables) _).
  assert (Hc1 : conn (browser p1) = Some db) by reflexivity.
  destruct (list_tables_run _ Hc1 Hf) as (w' & Hl).
  assert (Hro : same_outside_engine (browser p1) w').
  { pose proof (@preserves_list_tables same_outside_engine
                  same_outside_engine_refl same_outside_engine_trans
                  (fun n ss cs w => ltac:(repeat split)) (browser p1)) as H.
    now rewrite Hl in H. }
  destruct Hro as (_ & _ & Hcw & _ & _ & _ & _).
  rewrite Hc1 in Hcw.
  set (names := sorted (map (skipn 6)
                 (filter is_table_key (map fst (rows (metadata db)))))) in *.
  assert (Hmem : Cli.member table_name names = true).
  { apply member_In. eapply Permutation_in;
      [symmetry; apply sorted_perm | now apply stripped_names]. }
  assert (Hb : exists p2,
             blk p1 = (Done tt, p2)
             /\ conn (browser p2) = Some db
             /\ stderr p2 = stderr p
             /\ assoc output_file (files (browser p2))
                = Some (match fmt with
                        | Cli.json =>
                          JsonFile (JsonDoc table_name (Z.of_nat n)
                            (map (render_row isprintable) (firstn n rs)))
                        | Cli.csv =>
                          CsvFile ([lit "key"; lit "value"]
                            :: map (fun kv =>
                                      csv_line (render_row isprintable kv))
                                   (firstn n rs))
                        end)).
  { subst blk. unfold Cli.cbind at 1. rewrite lift_run, Hl. cbn [fst snd].
    rewrite Hmem. cbn [negb]. unfold Cli.cbind at 1, Cli.done.
    unfold Cli.cbind at 1.
    destruct fmt.
    - destruct (export_table_to_json_emits isprintable w' table_name
                  output_file limit Hcw Ht) as (w'' & Hrun & Hfile).
      assert (Hc'' : conn w'' = Some db).
      { pose proof (@preserves_export_table_to_json
                      (fun a b => conn b = conn a)
                      (fun _ => eq_refl)
                      (fun a b c H1 H2 => eq_trans H2 H1)
                      (fun _ _ _ _ => eq_refl) output_file
                      (fun _ _ => eq_refl) (fun _ _ => eq_refl)
                      (fun _ _ => eq_refl)
                      isprintable table_name limit w') as H.
        rewrite Hrun in H. cbn [snd] in H. congruence. }
      rewrite lift_run. cbn [browser Cli.set_browser]. rewrite Hrun.
      cbn [fst snd]. unfold Cli.echo, Cli.lift, print, modify.
      cbn [fst snd]. eexists. split; [reflexivity|].
      cbn [browser stderr Cli.set_browser set_stdout files conn].
      repeat split; assumption.
    - destruct (export_table_to_csv_emits isprintable w' table_name
                  output_file limit Hcw Ht) as (w'' & Hrun & Hfile).
      assert (Hc'' : conn w'' = Some db).
      { pose proof (@preserves_export_table_to_csv
                      (fun a b => conn b = conn a)
                      (fun _ => eq_refl)
                      (fun a b c H1 H2 => eq_trans H2 H1)
                      (fun _ _ _ _ => eq_refl) output_file
                      (fun _ _ => eq_refl) (fun _ _ => eq_refl)
                      (fun _ _ => eq_refl)
                      isprintable table_name limit w') as H.
        rewrite Hrun in H. cbn [snd] in H. congruence. }
      rewrite lift_run. cbn [browser Cli.set_browser]. rewrite Hrun.
      cbn [fst snd]. unfold Cli.echo, Cli.lift, print, modify.
      cbn [fst snd]. eexists. split; [reflexivity|].
      cbn [browser stderr Cli.set_browser set_stdout files conn].
      repeat split; assumption. }
  destruct Hb as (p2 & Hb & Hc2 & He2 & Hf2).
  rewrite Hb. cbn [fst snd].
  destruct (exited_open p2 Hc2) as (Hc3 & _ & Hf3 & He3).
  eexists. split; [reflexivity|].
  rewrite Hf3, He3. repeat split; assumption.
Qed.

(** X26.  When [export] of a table that is listed and whose scan completes
    ends normally, it has written nothing on standard error, the browser is
    closed, and the output path holds exactly what the browser's own export
    writes for that format and limit. *)
Theorem export_command_writes_the_table (path_str : pystr -> pystr)
    (isprintable : N -> bool) (db_path table_name output_file : pystr)
    (fmt : Cli.format) (limit : option Z) (p : process) (db : database)
    (rs : list (Value * Value)) :
  kind p = Directory ->
  disk (browser p) = Valid db ->
  fault (metadata db) = None ->
  In (lit "table:" ++ table_name) (map fst (rows (metadata db))) ->
  assoc table_name (tables db) = Some (Scan rs None) ->
  let n := emitted limit (List.length rs) in
  let run := Cli.export path_str isprintable db_path table_name output_file
               fmt limit p in
  fst run = Done tt ->
  conn (browser (snd run)) = None
  /\ stderr (snd run) = stderr p
  /\ assoc output_file (files (browser (snd run)))
     = Some (match fmt with
             | Cli.json =>
               JsonFile (JsonDoc table_name (Z.of_nat n)
                           (map (render_row isprintable) (firstn n rs)))
             | Cli.csv =>
               CsvFile ([lit "key"; lit "value"]
                        :: map (fun kv =>
                                  csv_line (render_row isprintable kv))
                               (firstn n rs))
             end).
Proof.
  intros Hk Hd Hf Hin Ht n run _.
  destruct (@export_command_run path_str isprintable db_path table_name
              output_file fmt limit p db rs Hk Hd Hf Hin Ht)
    as (p' & E & H).
  subst run. rewrite E. exact H.
Qed.

Lemma export_command_writes_the_table_witness :
  fst (Cli.export (fun s => s) Demo.always_printable (lit "/tmp/demo_wt_db")
         (lit "products") (lit "p.csv") Cli.csv (Some 3%Z) Demo2.shell)
  = Done tt
  /\ assoc (lit "p.csv")
       (files (browser (snd (Cli.export (fun s => s) Demo.always_printable
                               (lit "/tmp/demo_wt_db") (lit "products")
                               (lit "p.csv") Cli.csv (Some 3%Z)
                               Demo2.shell))))
     = Some (CsvFile
         ([lit "key"; lit "value"]
          :: map (fun kv => csv_line (render_row Demo.always_printable kv))
                 (firstn 3 (rows Demo.products)))).
Proof.
  split; [reflexivity|].
  apply (@export_command_writes_the_table (fun s => s) Demo.always_printable
           (lit "/tmp/demo_wt_db") (lit "products") (lit "p.csv") Cli.csv
           (Some 3%Z) Demo2.shell Demo.db (rows Demo.products)).
  - reflexivity.
  - reflexivity.
  - reflexivity.
  - vm_compute. tauto.
  - reflexivity.
  - reflexivity.
Defined.

Section ExportConsole.

Variable isprintable : N -> bool.
Variable line : Z -> pystr.

Ltac stdout_kept :=
  intros; unfold same_stdout in *; cbn; congruence.




End ExportConsole.



Section ExportAllLoop.

Variable path_join : pystr -> pystr -> pystr.
Variable isprintable : N -> bool.



End ExportAllLoop.



(** ** Sorting tables by kind *)

Lemma kinds_exclusive (t : pystr) :
  startswith t (lit "collection-") = true ->
  startswith t (lit "index-") = false.
Proof.
  destruct t as [|c t]; [discriminate|]. simpl.
  destruct (c =? 99)%N eqn:E; [|discriminate].
  apply N.eqb_eq in E. subst c. reflexivity.
Qed.

(** X28.  The three lists [analyze_mongodb_backup] sorts the tables into
    are a partition: every table is in exactly one of collections, indexes
    and system tables, so the three counts it prints add up to the number
    of tables found. *)
Theorem analyze_kinds_partition (tables : list pystr) :
  List.length (Analyze.collections tables)
  + List.length (Analyze.indexes tables)
  + List.length (Analyze.system tables)
  = List.length tables
  /\ Permutation
       (Analyze.collections tables ++ Analyze.indexes tables
        ++ Analyze.system tables)
       tables
  /\ forall t,
       ~ (In t (Analyze.collections tables) /\ In t (Analyze.indexes tables))
       /\ ~ (In t (Analyze.collections tables)
             /\ In t (Analyze.system tables))
       /\ ~ (In t (Analyze.indexes tables) /\ In t (Analyze.system tables)).
Proof.
  assert (Hperm : Permutation
            (Analyze.collections tables ++ Analyze.indexes tables
             ++ Analyze.system tables) tables).
  { unfold Analyze.collections, Analyze.indexes, Analyze.system,
      startswith_any.
    induction tables as [|t ts IH]; [constructor|].
    cbn [filter existsb].
    destruct (startswith t (lit "collection-")) eqn:Ec.
    - rewrite (kinds_exclusive _ Ec). cbn [orb negb app].
      now constructor.
    - destruct (startswith t (lit "index-")) eqn:Ei; cbn [orb negb].
      + apply Permutation_sym, Permutation_cons_app, Permutation_sym, IH.
      + rewrite app_assoc.
        apply Permutation_sym, Permutation_cons_app, Permutation_sym.
        rewrite <- app_assoc. exact IH. }
  split; [|split; [exact Hperm|]].
  - rewrite <- (Permutation_length Hperm), !length_app. lia.
  - intros t.
    unfold Analyze.collections, Analyze.indexes, Analyze.system,
      startswith_any.
    repeat split; intros [H1 H2];
      apply filter_In in H1, H2; destruct H1 as [_ H1], H2 as [_ H2];
      cbn [existsb] in *.
    + rewrite (kinds_exclusive _ H1) in H2. discriminate.
    + rewrite H1 in H2. discriminate.
    + rewrite H1, orb_true_r in H2. discriminate.
Qed.
